(** * resolve.py: a recursive DNS resolver built on dnspython

    A shallow embedding of [src/resolve.py] and the properties of its
    delegation resolver ([recursive_dns_lookup]), result collector
    ([collect_results]) and cached command-line loop ([main]).

    dnspython's message codec and UDP transport are external collaborators:
    they appear as section variables ([udp], [from_text]) whose replies may
    depend on everything the program did before.  Every call to them is
    recorded in an event log, so that "which servers were asked, in which
    order" is a statement about the log. *)

From Stdlib Require Import ZArith String Ascii List Lia.
From stdpp Require Import gmap strings list fin_maps.

Local Open Scope Z_scope.

(** ** Python string primitives used by the resolver *)

Module Py.

(** [str.isspace] on one character, for code points below 256. *)
Definition isspace (c : ascii) : bool :=
  let n := nat_of_ascii c in
  ((9 <=? n) && (n <=? 13) || (28 <=? n) && (n <=? 32)
   || (n =? 133) || (n =? 160))%nat.

(** [s[:-1]]: all but the last character; the empty string stays empty. *)
Fixpoint drop_last (s : string) : string :=
  match s with
  | EmptyString => EmptyString
  | String c EmptyString => EmptyString
  | String c s' => String c (drop_last s')
  end.

(** [cur] is the token being read, empty while between tokens. *)
Fixpoint split_go (cur : string) (s : string) : list string :=
  match s with
  | EmptyString => if decide (cur = "") then [] else [cur]
  | String c s' =>
      if isspace c
      then (if decide (cur = "") then [] else [cur]) ++ split_go "" s'
      else split_go (cur +:+ String c "") s'
  end.

(** [s.split()]: the maximal runs of non-whitespace characters. *)
Definition split (s : string) : list string := split_go "" s.

(** [l[-1]] on a non-empty list ([IndexError] on the empty one, which the
    resolver never reaches: it indexes only after finding a token). *)
Definition last_item (l : list string) : string := List.last l "".

End Py.

(** ** dnspython values, as far as resolve.py observes them *)

(** One resource record's data: its numeric type code, [str(rdata)], and the
    two attributes read from MX records ([str(rdata.exchange)] for the
    second). *)
Record Rdata := mkRdata {
  rdtype : Z;
  rdata_str : string;
  preference : Z;
  exchange : string
}.

(** A record set: owner name, the records obtained by iterating over it, and
    [str(rrset)], its presentation-format text. *)
Record RRset := mkRRset {
  rrset_name : string;
  rrset_items : list Rdata;
  rrset_str : string
}.

Record Message := mkMessage {
  msg_answer : list RRset;
  msg_authority : list RRset;
  msg_additional : list RRset
}.

Record Query := mkQuery {
  q_name : string;
  q_type : Z
}.

Module rdatatype.
Definition A : Z := 1.
Definition NS : Z := 2.
Definition CNAME : Z := 5.
Definition MX : Z := 15.
Definition AAAA : Z := 28.
End rdatatype.

Inductive Exception :=
| Timeout
| FormError
| BadResponse
| UnexpectedSource
| EmptyLabel
| LabelTooLong
| KeyError (key : string)
| OtherException (cls : string).

#[global] Instance Exception_eq_dec : EqDecision Exception.
Proof. solve_decision. Defined.

(** What a call into dnspython does: return a value or raise. *)
Inductive Try (A : Type) :=
| Returns (a : A)
| Raises (e : Exception).
Arguments Returns {A} a.
Arguments Raises {A} e.

(** What [target_name] holds: the [dns.name.Name] that [collect_results]
    parsed (written as its text), or a string cut out of a record's text. *)
Inductive Target :=
| NameObject (n : string)
| NameText (s : string).

(** Values stored in the dictionaries handed to [print_results]. *)
Inductive Value :=
| VStr (s : string)
| VInt (z : Z)
| VName (n : string)
| VRdata (r : Rdata).

(** ** Events and the resolver's monad *)

Inductive Event :=
| EvMakeQuery (qname : Target) (qtype : Z)
| EvUdp (q : Query) (server : string) (timeout : Z)
| EvPrint (fmt_str : string) (result : gmap string Value).

(** A run ends by returning, by raising, or by needing more nested calls
    than [depth] allows (Python's recursion limit; unbounded chains). *)
Inductive Outcome (A : Type) :=
| Ret (a : A)
| Raise (e : Exception)
| OutOfDepth.
Arguments Ret {A} a.
Arguments Raise {A} e.
Arguments OutOfDepth {A}.

Definition M (A : Type) : Type := list Event -> Outcome A * list Event.

Definition ret {A} (a : A) : M A := fun log => (Ret a, log).

Definition raise {A} (e : Exception) : M A := fun log => (Raise e, log).

Definition out_of_depth {A} : M A := fun log => (OutOfDepth, log).

Definition bind {A B} (m : M A) (k : A -> M B) : M B :=
  fun log =>
    match m log with
    | (Ret a, log') => k a log'
    | (Raise e, log') => (Raise e, log')
    | (OutOfDepth, log') => (OutOfDepth, log')
    end.

Definition emit (ev : Event) : M unit := fun log => (Ret tt, log ++ [ev]).

(** [try: m  except dns.exception.Timeout: ...]: a timeout becomes [None],
    any other exception keeps propagating. *)
Definition except_timeout {A} (m : M A) : M (option A) :=
  fun log =>
    match m log with
    | (Ret a, log') => (Ret (Some a), log')
    | (Raise Timeout, log') => (Ret None, log')
    | (Raise e, log') => (Raise e, log')
    | (OutOfDepth, log') => (OutOfDepth, log')
    end.

Declare Scope resolver_scope.
Delimit Scope resolver_scope with resolver.
Notation "x <- m ;; k" := (bind m (fun x => k))
  (at level 100, m at next level, right associativity) : resolver_scope.
Notation "m >> k" := (bind m (fun _ => k))
  (at level 100, right associativity) : resolver_scope.
Local Open Scope resolver_scope.

(** ** Module constants *)

Definition FORMATS : list (string * string) :=
  [("CNAME", "{alias} is an alias for {name}");
   ("A", "{name} has address {address}");
   ("AAAA", "{name} has IPv6 address {address}");
   ("MX", "{name} mail is handled by {preference} {exchange}")].

Definition ROOT_SERVERS : list string :=
  ["198.41.0.4"; "199.9.14.201"; "192.33.4.12"; "199.7.91.13";
   "192.203.230.10"; "192.5.5.241"; "192.112.36.4"; "198.97.190.53";
   "192.36.148.17"; "192.58.128.30"; "193.0.14.129"; "199.7.83.42";
   "202.12.27.33"].

(** ** [str.format] on the templates *)

(** The replacement fields of a template, in order: the texts between an
    opening brace and the next closing one.  Doubled braces, conversions
    and format specifications, which the templates of [FORMATS] do not use,
    are not told apart. *)
Fixpoint format_fields_go (field : option string) (fmt_str : string)
    : list string :=
  match fmt_str with
  | EmptyString => []
  | String c rest =>
      match field with
      | None =>
          if Ascii.eqb c "{" then format_fields_go (Some "") rest
          else format_fields_go None rest
      | Some name =>
          if Ascii.eqb c "}" then name :: format_fields_go None rest
          else format_fields_go (Some (name +:+ String c "")) rest
      end
  end.

Definition format_fields (fmt_str : string) : list string :=
  format_fields_go None fmt_str.

(** The values of the fields, looked up by name in the keyword arguments;
    the first field that is not among them raises [KeyError]. *)
Fixpoint format_values (fields : list string) (kwargs : gmap string Value)
    : Try (list Value) :=
  match fields with
  | [] => Returns []
  | field :: rest =>
      match kwargs !! field with
      | None => Raises (KeyError field)
      | Some value =>
          match format_values rest kwargs with
          | Returns values => Returns (value :: values)
          | Raises e => Raises e
          end
      end
  end.

(** [fmt_str.format] with keyword arguments, as the values it puts into
    the template. *)
Definition str_format (fmt_str : string) (kwargs : gmap string Value)
    : Try (list Value) :=
  format_values (format_fields fmt_str) kwargs.

(** ** The scan of an answer section (lines 117-130) *)

(** How the two nested [for] loops over the answer section end: by
    [return query_response], by the alias restart, or by running to their
    end; the last two carry the value [target_name] then has. *)
Inductive Scan :=
| ScanReturn
| ScanAlias (target_name : Target)
| ScanNext (target_name : Target).

Fixpoint scan_rrset (qtype : Z) (response_answers : list Rdata)
    (target_name : Target) : Scan :=
  match response_answers with
  | [] => ScanNext target_name
  | response_answer :: rest =>
      let target_name :=
        NameText (Py.drop_last (rdata_str response_answer)) in
      if negb (rdtype response_answer =? qtype) then
        if rdtype response_answer =? 5 then ScanAlias target_name
        else scan_rrset qtype rest target_name
      else ScanReturn
  end.

Fixpoint scan_answer (qtype : Z) (answer : list RRset)
    (target_name : Target) : Scan :=
  match answer with
  | [] => ScanNext target_name
  | response_answers :: rest =>
      match scan_rrset qtype (rrset_items response_answers) target_name with
      | ScanNext target_name => scan_answer qtype rest target_name
      | stop => stop
      end
  end.

(** ** Glue extraction (lines 135-153) *)

(** The inner loop over [resp_elements]; [last] is [resp_elements[-1]]. *)
Fixpoint ip_address_of (last : string) (resp_elements : list string)
    : list string :=
  match resp_elements with
  | [] => []
  | resp_element :: rest =>
      if decide (resp_element ≠ "A") then ip_address_of last rest
      else last :: ip_address_of last rest
  end.

Definition glue_of_rrset (response_additional : RRset) : list string :=
  let response_additional_str := rrset_str response_additional in
  let resp_elements := Py.split response_additional_str in
  ip_address_of (Py.last_item resp_elements) resp_elements.

Fixpoint glue_addresses (additional : list RRset) : list string :=
  match additional with
  | [] => []
  | response_additional :: rest =>
      glue_of_rrset response_additional ++ glue_addresses rest
  end.

(** ** The program *)

Section Resolver.

(** [dns.query.udp]: what the server at an address does with a query,
    given everything that happened so far. *)
Variable udp : list Event -> Query -> string -> Z -> Try Message.

(** [dns.name.from_text]. *)
Variable from_text : string -> Try string.

Definition lift {A} (t : Try A) : M A :=
  match t with
  | Returns a => ret a
  | Raises e => raise e
  end.

Definition dns_name_from_text (text : string) : M string :=
  lift (from_text text).

(** The name a query for [qname] asks about: [make_query] parses a string
    with [from_text] and takes a name object as it is. *)
Definition query_name (qname : Target) : Try string :=
  match qname with
  | NameObject n => Returns n
  | NameText s => from_text s
  end.

Definition dns_message_make_query (qname : Target) (qtype : Z) : M Query :=
  emit (EvMakeQuery qname qtype) >>
  qname <- lift (query_name qname) ;;
  ret (mkQuery qname qtype).

Definition dns_query_udp (q : Query) (where_ : string) (timeout : Z)
    : M Message :=
  fun log =>
    (match udp log q where_ timeout with
     | Returns r => Ret r
     | Raises e => Raise e
     end, log ++ [EvUdp q where_ timeout]).

(** The [for server in root_servers_list] loop.  [recurse] is the function
    itself, one level deeper; [dns_query] was built before the loop from
    the name the call received, [target_name] is the local variable. *)
Fixpoint for_server
    (recurse : Target -> Z -> list string -> M (option Message))
    (dns_query : Query) (qtype : Z)
    (servers : list string) (target_name : Target)
    : M (option Message) :=
  match servers with
  | [] => ret None
  | server :: servers' =>
      reply <- except_timeout (dns_query_udp dns_query server 3) ;;
      match reply with
      | None => for_server recurse dns_query qtype servers' target_name
      | Some query_response =>
          match msg_answer query_response with
          | _ :: _ =>
              match scan_answer qtype (msg_answer query_response)
                      target_name with
              | ScanReturn => ret (Some query_response)
              | ScanAlias target_name =>
                  recurse target_name qtype ROOT_SERVERS
              | ScanNext target_name =>
                  for_server recurse dns_query qtype servers' target_name
              end
          | [] =>
              match msg_additional query_response with
              | _ :: _ =>
                  let ip_addresses :=
                    glue_addresses (msg_additional query_response) in
                  recurse target_name qtype ip_addresses
              | [] =>
                  for_server recurse dns_query qtype servers' target_name
              end
          end
      end
  end.

Definition recursive_dns_lookup_body
    (recurse : Target -> Z -> list string -> M (option Message))
    (target_name : Target) (qtype : Z) (root_servers_list : list string)
    : M (option Message) :=
  match root_servers_list with
  | [] => ret None
  | _ :: _ =>
      dns_query <- dns_message_make_query target_name qtype ;;
      for_server recurse dns_query qtype root_servers_list target_name
  end.

(** [depth] bounds how many calls may be nested below this one. *)
Fixpoint recursive_dns_lookup (depth : nat)
    (target_name : Target) (qtype : Z) (root_servers_list : list string)
    : M (option Message) :=
  recursive_dns_lookup_body
    (match depth with
     | O => fun _ _ _ => out_of_depth
     | S depth' => recursive_dns_lookup depth'
     end)
    target_name qtype root_servers_list.

Definition lookup (depth : nat) (target_name : Target) (qtype : Z)
    : M (option Message) :=
  recursive_dns_lookup depth target_name qtype ROOT_SERVERS.

(** The four reshaping loops of [collect_results]. *)
Definition cname_records (name : string) (response : option Message)
    : list (gmap string Value) :=
  match response with
  | Some response =>
      flat_map (fun answers =>
        List.map (fun answer =>
               {[ "name" := VRdata answer; "alias" := VStr name ]})
            (rrset_items answers))
        (msg_answer response)
  | None => []
  end.

Definition address_records (code : Z) (response : option Message)
    : list (gmap string Value) :=
  match response with
  | Some response =>
      flat_map (fun answers =>
        let a_name := rrset_name answers in
        List.map (fun answer =>
               {[ "name" := VName a_name;
                  "address" := VStr (rdata_str answer) ]})
            (List.filter (fun answer => rdtype answer =? code)
               (rrset_items answers)))
        (msg_answer response)
  | None => []
  end.

Definition mx_records (response : option Message)
    : list (gmap string Value) :=
  match response with
  | Some response =>
      flat_map (fun answers =>
        let mx_name := rrset_name answers in
        List.map (fun answer =>
               {[ "name" := VName mx_name;
                  "preference" := VInt (preference answer);
                  "exchange" := VStr (exchange answer) ]})
            (List.filter (fun answer => rdtype answer =? 15)
               (rrset_items answers)))
        (msg_answer response)
  | None => []
  end.

Definition collect_results (depth : nat) (name : string)
    : M (gmap string (list (gmap string Value))) :=
  let full_response : gmap string (list (gmap string Value)) := ∅ in
  target_name <- dns_name_from_text name ;;
  let target_name := NameObject target_name in
  response <- lookup depth target_name rdatatype.CNAME ;;
  let cnames := cname_records name response in
  response <- lookup depth target_name rdatatype.A ;;
  let arecords := address_records 1 response in
  response <- lookup depth target_name rdatatype.AAAA ;;
  let aaaarecords := address_records 28 response in
  response <- lookup depth target_name rdatatype.MX ;;
  let mxrecords := mx_records response in
  let full_response := <["CNAME" := cnames]> full_response in
  let full_response := <["A" := arecords]> full_response in
  let full_response := <["AAAA" := aaaarecords]> full_response in
  let full_response := <["MX" := mxrecords]> full_response in
  ret full_response.

Fixpoint for_each {A} (l : list A) (body : A -> M unit) : M unit :=
  match l with
  | [] => ret tt
  | x :: l' => body x >> for_each l' body
  end.

(** One [EvPrint] per printed line, carrying the template and the record
    it is filled from; formatting a record that lacks a key of its template
    raises [KeyError] before the line is printed. *)
Definition print_results (results : gmap string (list (gmap string Value)))
    : M unit :=
  for_each FORMATS (fun '(rtype, fmt_str) =>
    for_each (default [] (results !! rtype)) (fun result =>
      lift (str_format fmt_str result) >>
      emit (EvPrint fmt_str result))).

(** The body of the loop of [main] over [program_args.name]; the module
    global [CACHE_SYSTEM] is passed in and handed back. *)
Definition main_step (depth : nat) (a_domain_name : string)
    (CACHE_SYSTEM : gmap string (gmap string (list (gmap string Value))))
    : M (gmap string (gmap string (list (gmap string Value)))) :=
  match CACHE_SYSTEM !! a_domain_name with
  | Some cached => print_results cached >> ret CACHE_SYSTEM
  | None =>
      results <- collect_results depth a_domain_name ;;
      let CACHE_SYSTEM := <[a_domain_name := results]> CACHE_SYSTEM in
      print_results (default ∅ (CACHE_SYSTEM !! a_domain_name)) >>
      ret CACHE_SYSTEM
  end.

Fixpoint main_loop (depth : nat) (names : list string)
    (CACHE_SYSTEM : gmap string (gmap string (list (gmap string Value))))
    : M (gmap string (gmap string (list (gmap string Value)))) :=
  match names with
  | [] => ret CACHE_SYSTEM
  | a_domain_name :: rest =>
      CACHE_SYSTEM <- main_step depth a_domain_name CACHE_SYSTEM ;;
      main_loop depth rest CACHE_SYSTEM
  end.

Definition main (depth : nat) (names : list string)
    : M (gmap string (gmap string (list (gmap string Value)))) :=
  main_loop depth names ∅.

End Resolver.

Arguments for_each {A} l body.

(** ** Vocabulary for the statements *)

(** The transport events of asking [servers], in order, with one query. *)
Definition sends (q : Query) (servers : list string) : list Event :=
  List.map (fun server => EvUdp q server 3) servers.

(** The servers the log shows a datagram was sent to, oldest first. *)
Fixpoint servers_asked (log : list Event) : list string :=
  match log with
  | [] => []
  | EvUdp _ server _ :: log' => server :: servers_asked log'
  | _ :: log' => servers_asked log'
  end.

(** Events that reach the codec or the network. *)
Definition is_network_event (ev : Event) : bool :=
  match ev with
  | EvMakeQuery _ _ | EvUdp _ _ _ => true
  | EvPrint _ _ => false
  end.

(** The log once a call entered with history [log] has built its query for
    ([target], [T]), which asks about the name [n], and has asked
    [servers], in order. *)
Definition after_asking (log : list Event) (target : Target) (n : string)
    (T : Z) (servers : list string) : list Event :=
  log ++ EvMakeQuery target T :: sends (mkQuery n T) servers.

(** A result each of whose records has the keys its template names. *)
Definition printable (results : gmap string (list (gmap string Value)))
    : Prop :=
  forall rtype fmt_str result,
    In (rtype, fmt_str) FORMATS ->
    In result (default [] (results !! rtype)) ->
    exists values, str_format fmt_str result = Returns values.

(** The lines [print_results] prints for a printable result. *)
Definition printed (results : gmap string (list (gmap string Value)))
    : list Event :=
  flat_map (fun '(rtype, fmt_str) =>
              flat_map (fun result => [EvPrint fmt_str result])
                (default [] (results !! rtype)))
    FORMATS.

(** A run that ended without hitting the depth bound. *)
Definition within_depth {A} (run : Outcome A * list Event) : Prop :=
  fst run <> OutOfDepth.

(** A hierarchy that never changes: what a server replies does not depend
    on what happened before. *)
Definition static (udp : list Event -> Query -> string -> Z -> Try Message)
    : Prop :=
  forall log1 log2 q server timeout,
    udp log1 q server timeout = udp log2 q server timeout.

(** A computation that ends the same way and adds the same events to the
    log, whatever the log was. *)
Definition uniform {A} (m : M A) : Prop :=
  exists outcome events, forall log, m log = (outcome, log ++ events).

(** All records of an answer section, in the order the scan visits them. *)
Definition answer_records (answer : list RRset) : list Rdata :=
  flat_map rrset_items answer.

(** A record the scan for type [T] moves past: neither of that type nor an
    alias. *)
Definition unusable (T : Z) (x : Rdata) : Prop :=
  rdtype x <> T /\ rdtype x <> rdatatype.CNAME.

Section Vocabulary.

Variable udp : list Event -> Query -> string -> Z -> Try Message.
Variable from_text : string -> Try string.

(** What [recursive_dns_lookup] at [depth] calls when it recurses. *)
Definition nested_call (depth : nat)
    : Target -> Z -> list string -> M (option Message) :=
  match depth with
  | O => fun _ _ _ => out_of_depth
  | S depth' => recursive_dns_lookup udp from_text depth'
  end.

(** [passes_over q T servers tn log tn']: asked in order from history
    [log], every server of [servers] timed out or sent a response with no
    usable next step, so the loop moved past all of them; [tn] and [tn']
    are the values of [target_name] before and after. *)
Inductive passes_over (q : Query) (T : Z)
    : list string -> Target -> list Event -> Target -> Prop :=
| po_done tn log :
    passes_over q T [] tn log tn
| po_timeout server rest tn log tn' :
    udp log q server 3 = Raises Timeout ->
    passes_over q T rest tn (log ++ [EvUdp q server 3]) tn' ->
    passes_over q T (server :: rest) tn log tn'
| po_empty server rest tn log tn' r :
    udp log q server 3 = Returns r ->
    msg_answer r = [] ->
    msg_additional r = [] ->
    passes_over q T rest tn (log ++ [EvUdp q server 3]) tn' ->
    passes_over q T (server :: rest) tn log tn'
| po_no_match server rest tn log tn1 tn' r :
    udp log q server 3 = Returns r ->
    msg_answer r <> [] ->
    scan_answer T (msg_answer r) tn = ScanNext tn1 ->
    passes_over q T rest tn1 (log ++ [EvUdp q server 3]) tn' ->
    passes_over q T (server :: rest) tn log tn'.

(** [hands_over q T server tn log name' servers']: asked from history
    [log], [server] sent a response that makes the loop return a nested
    resolution of [name'] at [servers']: an alias restart at the root
    servers, or a referral to the extracted glue addresses. *)
Inductive hands_over (q : Query) (T : Z) (server : string)
    (tn : Target) (log : list Event) : Target -> list string -> Prop :=
| ho_alias r name' :
    udp log q server 3 = Returns r ->
    msg_answer r <> [] ->
    scan_answer T (msg_answer r) tn = ScanAlias name' ->
    hands_over q T server tn log name' ROOT_SERVERS
| ho_referral r :
    udp log q server 3 = Returns r ->
    msg_answer r = [] ->
    msg_additional r <> [] ->
    hands_over q T server tn log tn (glue_addresses (msg_additional r)).

End Vocabulary.

(** dnspython's text of a record set: one line
    [owner ttl class type rdata] per record, joined by newlines. *)
Definition rr_line (owner ttl rdclass rdtype_text rdata : string) : string :=
  owner +:+ " " +:+ ttl +:+ " " +:+ rdclass +:+ " " +:+ rdtype_text
        +:+ " " +:+ rdata.

Fixpoint join_lines (lines : list string) : string :=
  match lines with
  | [] => ""
  | [line] => line
  | line :: more => line +:+ String (ascii_of_nat 10) (join_lines more)
  end.

Definition rrset_to_text (owner ttl rdclass rdtype_text : string)
    (rdatas : list string) : string :=
  join_lines (List.map (rr_line owner ttl rdclass rdtype_text) rdatas).

(** A non-empty string without whitespace: what one token of [split] is. *)
Fixpoint no_space (s : string) : bool :=
  match s with
  | EmptyString => true
  | String c s' => negb (Py.isspace c) && no_space s'
  end.

Definition is_token (s : string) : Prop := s <> "" /\ no_space s = true.

(** ** Vocabulary for the invariants of a resolution *)

(** An event a resolution for type [T] may add to the log: a query built
    for [T], or a datagram that asks for [T] with the deadline of three
    seconds. *)
Definition event_for_type (T : Z) (ev : Event) : Prop :=
  match ev with
  | EvMakeQuery _ T' => T' = T
  | EvUdp q _ timeout => q_type q = T /\ timeout = 3
  | EvPrint _ _ => False
  end.

(** The keys of a collected result. *)
Definition four_tags : gset string := {[ "CNAME"; "A"; "AAAA"; "MX" ]}.

(** The lines printed for one record type. *)
Definition lines_of (fmt_str : string) (records : list (gmap string Value))
    : list Event :=
  List.map (EvPrint fmt_str) records.

(** The result in which no type has a record. *)
Definition nothing_found : gmap string (list (gmap string Value)) :=
  <["MX" := []]> (<["AAAA" := []]> (<["A" := []]> (<["CNAME" := []]> ∅))).

(** The events of one lookup of ([n], [T]) that asks every root server. *)
Definition root_round (n : string) (T : Z) : list Event :=
  EvMakeQuery (NameObject n) T :: sends (mkQuery n T) ROOT_SERVERS.

Section Invariants.

Variable udp : list Event -> Query -> string -> Z -> Try Message.
Variable from_text : string -> Try string.

(** Some server sent [r] in reply to a query for type [T]. *)
Definition received (T : Z) (r : Message) : Prop :=
  exists log q server, q_type q = T /\ udp log q server 3 = Returns r.

(** Where an exception that ends a resolution can come from: the parsing
    of a name, or a send that raised something other than a timeout. *)
Definition raised_by_collaborator (e : Exception) : Prop :=
  (exists text, from_text text = Raises e)
  \/ (e <> Timeout /\ exists log q server, udp log q server 3 = Raises e).

(** What every run of a resolution for type [T] from history [log]
    satisfies. *)
Definition resolution_inv (T : Z) (log : list Event)
    (run : Outcome (option Message) * list Event) : Prop :=
  (exists events,
      snd run = log ++ events /\ Forall (event_for_type T) events)
  /\ (forall r,
        fst run = Ret (Some r) ->
        received T r /\
        Exists (fun x => rdtype x = T) (answer_records (msg_answer r)))
  /\ (forall e, fst run = Raise e -> raised_by_collaborator e).

End Invariants.

(** ** Concrete hierarchies *)

Module Scenario.

(** Every name parses to itself. *)
Definition parse (text : string) : Try string := Returns text.

Definition a_record : Rdata := mkRdata 1 "93.184.216.34" 0 "".
Definition aaaa_record : Rdata := mkRdata 28 "2606:2800:220:1::1" 0 "".
Definition mx_record : Rdata :=
  mkRdata 15 "10 mail.example.com." 10 "mail.example.com.".
Definition cname_record : Rdata := mkRdata 5 "example.com." 0 "".

Definition a_answer : Message :=
  mkMessage
    [mkRRset "example.com." [a_record]
       "example.com. 300 IN A 93.184.216.34"] [] [].

Definition aaaa_answer : Message :=
  mkMessage
    [mkRRset "example.com." [aaaa_record]
       "example.com. 300 IN AAAA 2606:2800:220:1::1"] [] [].

Definition mx_answer : Message :=
  mkMessage
    [mkRRset "example.com." [mx_record]
       "example.com. 300 IN MX 10 mail.example.com."] [] [].

Definition cname_answer : Message :=
  mkMessage
    [mkRRset "www.example.com." [cname_record]
       "www.example.com. 300 IN CNAME example.com."] [] [].

(** No records at all: neither an answer nor a referral. *)
Definition empty_reply : Message := mkMessage [] [] [].

(** A referral whose only glue is an IPv6 address. *)
Definition aaaa_glue_referral : Message :=
  mkMessage [] []
    [mkRRset "a.iana-servers.net." [mkRdata 28 "2001:500:8f::53" 0 ""]
       "a.iana-servers.net. 172800 IN AAAA 2001:500:8f::53"].

(** A referral with one IPv4 glue address. *)
Definition a_glue_referral : Message :=
  mkMessage [] []
    [mkRRset "a.iana-servers.net." [mkRdata 1 "192.0.2.53" 0 ""]
       "a.iana-servers.net. 172800 IN A 192.0.2.53"].

(** Nobody answers. *)
Definition silent_net (log : list Event) (q : Query) (server : string)
    (timeout : Z) : Try Message :=
  Raises Timeout.

(** The first server refers to a name server it gives only an IPv6
    address for; the second server has the answer. *)
Definition glueless_net (log : list Event) (q : Query) (server : string)
    (timeout : Z) : Try Message :=
  if decide (server = "192.0.2.1") then Returns aaaa_glue_referral
  else if decide (server = "192.0.2.2") then Returns a_answer
  else Raises Timeout.

(** The first server refers to 192.0.2.53, which is down; the second
    server has the answer. *)
Definition dead_glue_net (log : list Event) (q : Query) (server : string)
    (timeout : Z) : Try Message :=
  if decide (server = "192.0.2.1") then Returns a_glue_referral
  else if decide (server = "192.0.2.2") then Returns a_answer
  else Raises Timeout.

(** The first server's datagram cannot be decoded; the second server has
    the answer. *)
Definition malformed_net (log : list Event) (q : Query) (server : string)
    (timeout : Z) : Try Message :=
  if decide (server = "192.0.2.1") then Raises FormError
  else if decide (server = "192.0.2.2") then Returns a_answer
  else Raises Timeout.

(** The first server is down; the second server has the answer. *)
Definition lagging_net (log : list Event) (q : Query) (server : string)
    (timeout : Z) : Try Message :=
  if decide (server = "192.0.2.2") then Returns a_answer
  else Raises Timeout.

(** www.example.com is an alias of example.com, whose address the first
    root server knows. *)
Definition alias_net (log : list Event) (q : Query) (server : string)
    (timeout : Z) : Try Message :=
  if decide (q_name q = "www.example.com" /\ server = "192.0.2.1")
  then Returns cname_answer
  else if decide (q_name q = "example.com" /\ server = "198.41.0.4")
  then Returns a_answer
  else Raises Timeout.

(** Asked for the address of example.com, the first server answers with
    its MX record only, the second refers to 192.0.2.53, and that server
    knows the address of example.com and of no other name. *)
Definition mx_then_referral_net (log : list Event) (q : Query)
    (server : string) (timeout : Z) : Try Message :=
  if decide (server = "192.0.2.1") then Returns mx_answer
  else if decide (server = "192.0.2.2") then Returns a_glue_referral
  else if decide (server = "192.0.2.53" /\ q_name q = "example.com")
  then Returns a_answer
  else Raises Timeout.

Definition dname_record : Rdata := mkRdata 39 "sub.example.net." 0 "".
Definition synthesized_cname : Rdata :=
  mkRdata 5 "www.sub.example.net." 0 "".

(** The answer to a CNAME query below a DNAME: the DNAME record and the
    CNAME synthesized from it. *)
Definition dname_answer : Message :=
  mkMessage
    [mkRRset "sub.example.com." [dname_record]
       "sub.example.com. 3600 IN DNAME sub.example.net.";
     mkRRset "www.sub.example.com." [synthesized_cname]
       "www.sub.example.com. 3600 IN CNAME www.sub.example.net."] [] [].

Definition dname_net (log : list Event) (q : Query) (server : string)
    (timeout : Z) : Try Message :=
  if decide (q_type q = 5 /\ server = "198.41.0.4")
  then Returns dname_answer
  else Raises Timeout.

(** A hierarchy that never changes: the first root server answers A, AAAA
    and MX queries itself and has nothing for other types; the other root
    servers are down. *)
Definition static_net (log : list Event) (q : Query) (server : string)
    (timeout : Z) : Try Message :=
  if decide (server = "198.41.0.4") then
    if decide (q_type q = 1) then Returns a_answer
    else if decide (q_type q = 28) then Returns aaaa_answer
    else if decide (q_type q = 15) then Returns mx_answer
    else Returns empty_reply
  else Raises Timeout.

End Scenario.


(** Runs of the collector and of the loop of [main] on those hierarchies. *)
Module Run.

Import Scenario.

(** What [collect_results] returns for www.sub.example.com in
    [dname_net]. *)
Definition dname_results : gmap string (list (gmap string Value)) :=
  <["MX" := []]>
    (<["AAAA" := []]>
       (<["A" := []]>
          (<["CNAME" := cname_records "www.sub.example.com"
                          (Some dname_answer)]> ∅))).

(** What [collect_results] returns for example.com in [static_net]. *)
Definition static_results : gmap string (list (gmap string Value)) :=
  <["MX" := mx_records (Some mx_answer)]>
    (<["AAAA" := address_records 28 (Some aaaa_answer)]>
       (<["A" := address_records 1 (Some a_answer)]>
          (<["CNAME" := []]> ∅))).

(** The four lookups of that call, each starting from the log the one
    before it left. *)
Definition cname_lookup :=
  lookup static_net parse 0 (NameObject "example.com") 5 [].

Definition a_lookup :=
  lookup static_net parse 0 (NameObject "example.com") 1
    (snd cname_lookup).

Definition aaaa_lookup :=
  lookup static_net parse 0 (NameObject "example.com") 28 (snd a_lookup).

Definition first_collect :=
  collect_results static_net parse 0 "example.com" [].

Definition second_collect :=
  collect_results static_net parse 0 "example.com" (snd first_collect).

Definition first_step :=
  main_step static_net parse 0 "example.com" ∅ [].

End Run.

(** Further hierarchies and runs. *)
Module More.

Import Scenario Run.

(** A name parser that rejects the empty label of "a..b". *)
Definition strict_parse (text : string) : Try string :=
  if decide (text = "a..b") then Raises EmptyLabel else Returns text.

(** No root server answers, and the first one's reply to an A query cannot
    be decoded. *)
Definition broken_a_net (log : list Event) (q : Query) (server : string)
    (timeout : Z) : Try Message :=
  if decide (q_type q = 1 /\ server = "198.41.0.4") then Raises FormError
  else Raises Timeout.

(** A record that says loop.example.com is an alias of itself. *)
Definition loop_record : Rdata := mkRdata 5 "loop.example.com." 0 "".

Definition loop_answer : Message :=
  mkMessage
    [mkRRset "loop.example.com." [loop_record]
       "loop.example.com. 300 IN CNAME loop.example.com."] [] [].

(** Every server answers every query with that record. *)
Definition loop_net (log : list Event) (q : Query) (server : string)
    (timeout : Z) : Try Message :=
  Returns loop_answer.

(** The first server refers to 192.0.2.53, which has the answer. *)
Definition two_level_net (log : list Event) (q : Query) (server : string)
    (timeout : Z) : Try Message :=
  if decide (server = "192.0.2.1") then Returns a_glue_referral
  else if decide (server = "192.0.2.53") then Returns a_answer
  else Raises Timeout.

(** The cache after main has looked up example.com in [static_net]. *)
Definition warm_cache : gmap string (gmap string (list (gmap string Value))) :=
  <["example.com" := static_results]> ∅.

(** The loop of [main] given example.com twice, from an empty cache. *)
Definition twice :=
  main_loop static_net parse 0 ["example.com"; "example.com"] ∅ [].

End More.

(** ** The server loop, one server at a time *)

Section Loop.

Variable udp : list Event -> Query -> string -> Z -> Try Message.
Variable recurse : Target -> Z -> list string -> M (option Message).

Lemma for_server_timeout q T server rest tn log :
  udp log q server 3 = Raises Timeout ->
  for_server udp recurse q T (server :: rest) tn log
  = for_server udp recurse q T rest tn (log ++ [EvUdp q server 3]).
Proof.
  intros Hudp. cbn [for_server].
  unfold bind, except_timeout, dns_query_udp. now rewrite Hudp.
Qed.

Lemma for_server_raise q T server rest tn log e :
  udp log q server 3 = Raises e ->
  e <> Timeout ->
  for_server udp recurse q T (server :: rest) tn log
  = (Raise e, log ++ [EvUdp q server 3]).
Proof.
  intros Hudp Hne. cbn [for_server].
  unfold bind, except_timeout, dns_query_udp. rewrite Hudp.
  destruct e; congruence.
Qed.

Lemma for_server_reply q T server rest tn log r :
  udp log q server 3 = Returns r ->
  for_server udp recurse q T (server :: rest) tn log
  = match msg_answer r with
    | _ :: _ =>
        match scan_answer T (msg_answer r) tn with
        | ScanReturn => ret (Some r)
        | ScanAlias tn' => recurse tn' T ROOT_SERVERS
        | ScanNext tn' => for_server udp recurse q T rest tn'
        end
    | [] =>
        match msg_additional r with
        | _ :: _ => recurse tn T (glue_addresses (msg_additional r))
        | [] => for_server udp recurse q T rest tn
        end
    end (log ++ [EvUdp q server 3]).
Proof.
  intros Hudp. cbn [for_server].
  unfold bind, except_timeout, dns_query_udp. now rewrite Hudp.
Qed.

Lemma for_server_hands_over q T server rest tn log name' servers' :
  hands_over udp q T server tn log name' servers' ->
  for_server udp recurse q T (server :: rest) tn log
  = recurse name' T servers' (log ++ [EvUdp q server 3]).
Proof.
  intros [r n Hudp Hans Hscan | r Hudp Hans Hadd];
    rewrite (for_server_reply _ _ _ _ _ _ _ Hudp).
  - destruct (msg_answer r); [congruence|]. now rewrite Hscan.
  - rewrite Hans. now destruct (msg_additional r).
Qed.

Lemma sends_app q l1 l2 : sends q (l1 ++ l2) = sends q l1 ++ sends q l2.
Proof. apply List.map_app. Qed.

Lemma for_server_passes_over q T skipped rest tn log tn' :
  passes_over udp q T skipped tn log tn' ->
  for_server udp recurse q T (skipped ++ rest) tn log
  = for_server udp recurse q T rest tn' (log ++ sends q skipped).
Proof.
  induction 1 as [tn log
                 | server more tn log tn' Hudp _ IH
                 | server more tn log tn' r Hudp Hans Hadd _ IH
                 | server more tn log tn1 tn' r Hudp Hans Hscan _ IH].
  - cbn. now rewrite app_nil_r.
  - cbn [app]. rewrite for_server_timeout by assumption.
    rewrite IH. cbn [sends List.map]. now rewrite <- app_assoc.
  - cbn [app]. rewrite (for_server_reply _ _ _ _ _ _ _ Hudp), Hans, Hadd.
    rewrite IH. cbn [sends List.map]. now rewrite <- app_assoc.
  - cbn [app]. rewrite (for_server_reply _ _ _ _ _ _ _ Hudp), Hscan.
    destruct (msg_answer r); [congruence|].
    rewrite IH. cbn [sends List.map]. now rewrite <- app_assoc.
Qed.

Lemma passes_over_app q T l1 l2 tn log tn1 tn2 :
  passes_over udp q T l1 tn log tn1 ->
  passes_over udp q T l2 tn1 (log ++ sends q l1) tn2 ->
  passes_over udp q T (l1 ++ l2) tn log tn2.
Proof.
  induction 1 as [tn log
                 | server more tn log tn' Hudp _ IH
                 | server more tn log tn' r Hudp Hans Hadd _ IH
                 | server more tn log tn1 tn' r Hudp Hans Hscan _ IH];
    cbn [app sends List.map]; intros H2.
  - now rewrite app_nil_r in H2.
  - apply po_timeout; [assumption|]. apply IH.
    now rewrite <- app_assoc.
  - apply po_empty with r; try assumption. apply IH.
    now rewrite <- app_assoc.
  - apply po_no_match with tn1 r; try assumption. apply IH.
    now rewrite <- app_assoc.
Qed.

(** Every way the loop can end in [None]: it ran past every server, or
    the first server that did not let it pass handed over to a nested
    resolution, and that one ended in [None]. *)
Lemma for_server_not_found q T servers : forall tn log log',
  for_server udp recurse q T servers tn log = (Ret None, log') ->
  (exists tn',
      passes_over udp q T servers tn log tn' /\
      log' = log ++ sends q servers)
  \/ (exists tried server rest tn1 name' servers',
      servers = tried ++ server :: rest /\
      passes_over udp q T tried tn log tn1 /\
      hands_over udp q T server tn1 (log ++ sends q tried) name' servers' /\
      recurse name' T servers' (log ++ sends q (tried ++ [server]))
      = (Ret None, log')).
Proof.
  induction servers as [|server rest IH]; intros tn log log' Hrun.
  - left. exists tn. split; [constructor|].
    cbn in Hrun. injection Hrun as <-. cbn. now rewrite app_nil_r.
  - assert (Hext : forall tn1,
      for_server udp recurse q T rest tn1 (log ++ [EvUdp q server 3])
        = (Ret None, log') ->
      (forall l tn', passes_over udp q T l tn1
                       (log ++ [EvUdp q server 3]) tn' ->
                     passes_over udp q T (server :: l) tn log tn') ->
      (exists tn',
          passes_over udp q T (server :: rest) tn log tn' /\
          log' = log ++ sends q (server :: rest))
      \/ (exists tried server0 rest0 tn2 name' servers',
          server :: rest = tried ++ server0 :: rest0 /\
          passes_over udp q T tried tn log tn2 /\
          hands_over udp q T server0 tn2 (log ++ sends q tried)
            name' servers' /\
          recurse name' T servers' (log ++ sends q (tried ++ [server0]))
          = (Ret None, log'))).
    { intros tn1 Hrest Hstep.
      destruct (IH _ _ _ Hrest)
        as [(tn' & Hpo & ->)
           | (tried & s0 & rest0 & tn2 & n' & ss' & -> & Hpo & Hho & Hrec)].
      - left. exists tn'. split; [now apply Hstep|].
        cbn [sends List.map]. now rewrite <- app_assoc.
      - right. exists (server :: tried), s0, rest0, tn2, n', ss'.
        cbn [app sends List.map] in *.
        rewrite <- !app_assoc in *. cbn [app] in *.
        repeat split; auto. }
    destruct (udp log q server 3) as [r|e] eqn:Hudp.
    + rewrite (for_server_reply _ _ _ _ _ _ _ Hudp) in Hrun.
      destruct (msg_answer r) as [|rrs answer] eqn:Hans.
      * destruct (msg_additional r) as [|g additional] eqn:Hadd.
        -- apply (Hext tn Hrun). intros l tn'. now apply po_empty with r.
        -- right. exists [], server, rest, tn, tn,
             (glue_addresses (msg_additional r)).
           cbn [app sends List.map]. rewrite app_nil_r.
           repeat split; [constructor| |now rewrite Hadd].
           apply ho_referral; congruence.
      * destruct (scan_answer T (rrs :: answer) tn) as [|tn1|tn1] eqn:Hscan.
        -- discriminate.
        -- right. exists [], server, rest, tn, tn1, ROOT_SERVERS.
           cbn [app sends List.map]. rewrite app_nil_r.
           repeat split; [constructor| |assumption].
           apply ho_alias with r; congruence.
        -- apply (Hext tn1 Hrun). intros l tn'.
           apply po_no_match with r; congruence.
    + destruct (decide (e = Timeout)) as [->|Hne].
      * rewrite for_server_timeout in Hrun by assumption.
        apply (Hext tn Hrun). intros l tn'. now apply po_timeout.
      * rewrite (for_server_raise _ _ _ _ _ _ _ Hudp Hne) in Hrun.
        discriminate.
Qed.

End Loop.

(** ** Depth *)

Section Depth.

Variable udp : list Event -> Query -> string -> Z -> Try Message.
Variable from_text : string -> Try string.

Lemma for_server_more_depth recurse1 recurse2 q T servers :
  (forall tn ss log,
      within_depth (recurse1 tn T ss log) ->
      recurse2 tn T ss log = recurse1 tn T ss log) ->
  forall tn log,
    within_depth (for_server udp recurse1 q T servers tn log) ->
    for_server udp recurse2 q T servers tn log
    = for_server udp recurse1 q T servers tn log.
Proof.
  intros Hrec. induction servers as [|server rest IH]; intros tn log Hin;
    [reflexivity|].
  destruct (udp log q server 3) as [r|e] eqn:Hudp.
  - rewrite !(for_server_reply _ _ _ _ _ _ _ _ _ Hudp) in *.
    destruct (msg_answer r).
    + destruct (msg_additional r); auto.
    + destruct (scan_answer T _ tn); auto.
  - destruct (decide (e = Timeout)) as [->|Hne].
    + rewrite !for_server_timeout in * by assumption. auto.
    + now rewrite !(for_server_raise _ _ _ _ _ _ _ _ _ Hudp Hne).
Qed.

(** What a call returns or raises does not depend on the depth it was
    allowed: with more depth it ends the same way, with the same log. *)
Lemma recursive_dns_lookup_more_depth depth :
  forall target T servers log,
    within_depth (recursive_dns_lookup udp from_text depth target T servers
                    log) ->
    recursive_dns_lookup udp from_text (S depth) target T servers log
    = recursive_dns_lookup udp from_text depth target T servers log.
Proof.
  induction depth as [|depth IH]; intros target T servers log Hin;
    (destruct servers as [|s l]; [reflexivity|]);
    cbn [recursive_dns_lookup] in *;
    unfold recursive_dns_lookup_body, bind in *;
    destruct (dns_message_make_query from_text target T log)
      as [[q| |] log0]; try reflexivity;
    apply for_server_more_depth; try assumption.
  - intros tn ss log1 Hout. now contradiction Hout.
  - intros tn ss log1 Hout. now apply IH.
Qed.

End Depth.

(** ** Whitespace tokenization *)

Section SplitFacts.

Lemma string_app_nil_l (s : string) : "" +:+ s = s.
Proof. reflexivity. Qed.

Lemma string_app_cons a (s1 s2 : string) :
  String a s1 +:+ s2 = String a (s1 +:+ s2).
Proof. reflexivity. Qed.

Lemma string_app_nil_r (s : string) : s +:+ "" = s.
Proof.
  induction s as [|a s IH]; [reflexivity|].
  now rewrite string_app_cons, IH.
Qed.

Lemma string_app_assoc (s1 s2 s3 : string) :
  (s1 +:+ s2) +:+ s3 = s1 +:+ (s2 +:+ s3).
Proof.
  induction s1 as [|a s1 IH]; [reflexivity|].
  now rewrite !string_app_cons, IH.
Qed.

(** Cutting the last character off undoes appending one. *)
Lemma drop_last_snoc (s : string) ch :
  Py.drop_last (s +:+ String ch "") = s.
Proof.
  induction s as [|a s IH]; [reflexivity|].
  rewrite string_app_cons. destruct s as [|b s]; [reflexivity|].
  rewrite string_app_cons in *. cbn [Py.drop_last] in *. now rewrite IH.
Qed.

(** Splitting distributes over a whitespace character. *)
Lemma split_go_sep s1 : forall cur c s2,
  Py.isspace c = true ->
  Py.split_go cur (s1 +:+ String c s2)
  = Py.split_go cur s1 ++ Py.split_go "" s2.
Proof.
  induction s1 as [|a s1 IH]; intros cur c s2 Hc.
  - rewrite string_app_nil_l. cbn. now rewrite Hc.
  - rewrite string_app_cons. cbn [Py.split_go]. destruct (Py.isspace a).
    + rewrite IH by assumption. now rewrite <- app_assoc.
    + now apply IH.
Qed.

Lemma split_go_no_space t : forall cur,
  no_space t = true ->
  Py.split_go cur t = if decide (cur +:+ t = "") then [] else [cur +:+ t].
Proof.
  induction t as [|a t IH]; intros cur Ht; cbn.
  - now rewrite string_app_nil_r.
  - cbn in Ht. apply andb_prop in Ht as [Ha Ht].
    destruct (Py.isspace a); [discriminate|].
    rewrite IH by assumption. now rewrite string_app_assoc.
Qed.

Lemma split_sep s1 c s2 :
  Py.isspace c = true ->
  Py.split (s1 +:+ String c s2) = Py.split s1 ++ Py.split s2.
Proof. apply split_go_sep. Qed.

Lemma split_token t : is_token t -> Py.split t = [t].
Proof.
  intros [Hne Hns]. unfold Py.split. rewrite split_go_no_space by assumption.
  rewrite string_app_nil_l. destruct (decide (t = "")); [contradiction|reflexivity].
Qed.

Lemma split_rr_line owner ttl rdclass rdtype_text rdata :
  is_token owner -> is_token ttl -> is_token rdclass ->
  is_token rdtype_text ->
  Py.split (rr_line owner ttl rdclass rdtype_text rdata)
  = [owner; ttl; rdclass; rdtype_text] ++ Py.split rdata.
Proof.
  intros Ho Ht Hc Hy. unfold rr_line.
  rewrite !string_app_cons, !string_app_nil_l.
  rewrite !split_sep by reflexivity.
  now rewrite !split_token by assumption.
Qed.

Lemma split_join_lines lines :
  Py.split (join_lines lines) = flat_map Py.split lines.
Proof.
  induction lines as [|line [|next more] IH]; [reflexivity| |].
  - cbn. now rewrite app_nil_r.
  - change (join_lines (line :: next :: more))
      with (line +:+ String (ascii_of_nat 10) (join_lines (next :: more))).
    rewrite split_sep by reflexivity. now rewrite IH.
Qed.

Lemma split_rrset_to_text owner ttl rdclass rdtype_text rdatas :
  is_token owner -> is_token ttl -> is_token rdclass ->
  is_token rdtype_text ->
  Py.split (rrset_to_text owner ttl rdclass rdtype_text rdatas)
  = flat_map (fun rdata =>
                [owner; ttl; rdclass; rdtype_text] ++ Py.split rdata)
      rdatas.
Proof.
  intros Ho Ht Hc Hy. unfold rrset_to_text. rewrite split_join_lines.
  induction rdatas as [|rdata rdatas IH]; [reflexivity|].
  cbn [List.map flat_map]. rewrite IH.
  now rewrite split_rr_line by assumption.
Qed.

End SplitFacts.


(** ** The scan of an answer section *)

Section ScanFacts.

Variable T : Z.

Lemma scan_rrset_app l1 l2 tn :
  scan_rrset T (l1 ++ l2) tn
  = match scan_rrset T l1 tn with
    | ScanNext tn1 => scan_rrset T l2 tn1
    | stop => stop
    end.
Proof.
  revert tn. induction l1 as [|x l1 IH]; intros tn; cbn; [reflexivity|].
  destruct (rdtype x =? T); cbn; [reflexivity|].
  destruct (rdtype x =? 5); [reflexivity|apply IH].
Qed.

Lemma scan_answer_records answer tn :
  scan_answer T answer tn = scan_rrset T (answer_records answer) tn.
Proof.
  revert tn. induction answer as [|rrs answer IH]; intros tn; cbn;
    [reflexivity|].
  rewrite scan_rrset_app.
  destruct (scan_rrset T (rrset_items rrs) tn); auto.
Qed.

Lemma scan_rrset_unusable_step x l tn :
  unusable T x ->
  scan_rrset T (x :: l) tn
  = scan_rrset T l (NameText (Py.drop_last (rdata_str x))).
Proof.
  intros [HT HC]. unfold rdatatype.CNAME in HC. cbn.
  destruct (Z.eqb_spec (rdtype x) T); [contradiction|].
  destruct (Z.eqb_spec (rdtype x) 5); [contradiction|reflexivity].
Qed.

Lemma last_cons_default {A} (a : A) l d1 d2 :
  List.last (a :: l) d1 = List.last (a :: l) d2.
Proof.
  revert a. induction l as [|b l IH]; intros a; [reflexivity|].
  cbn [List.last]. apply IH.
Qed.

Lemma scan_rrset_unusable l : forall tn,
  Forall (unusable T) l ->
  scan_rrset T l tn
  = ScanNext
      (List.last
         (List.map (fun x => NameText (Py.drop_last (rdata_str x))) l) tn).
Proof.
  induction l as [|x l IH]; intros tn Hall; [reflexivity|].
  inversion Hall as [|? ? Hx Hl]; subst.
  rewrite scan_rrset_unusable_step, IH by assumption.
  destruct l as [|y l]; [reflexivity|].
  cbn [List.map List.last]. f_equal. apply last_cons_default.
Qed.

Lemma scan_rrset_alias pre c post tn :
  T <> rdatatype.CNAME ->
  Forall (unusable T) pre ->
  rdtype c = rdatatype.CNAME ->
  scan_rrset T (pre ++ c :: post) tn
  = ScanAlias (NameText (Py.drop_last (rdata_str c))).
Proof.
  intros HT Hpre Hc. rewrite scan_rrset_app, scan_rrset_unusable by easy.
  cbn. rewrite Hc. unfold rdatatype.CNAME in *.
  destruct (Z.eqb_spec 5 T); [congruence|reflexivity].
Qed.

End ScanFacts.

(** ** The delegation resolver *)

Section ResolverFacts.

Variable udp : list Event -> Query -> string -> Z -> Try Message.
Variable from_text : string -> Try string.

Lemma recursive_dns_lookup_unfold depth target n T servers log :
  servers <> [] ->
  query_name from_text target = Returns n ->
  recursive_dns_lookup udp from_text depth target T servers log
  = for_server udp (nested_call udp from_text depth) (mkQuery n T) T
      servers target (after_asking log target n T []).
Proof.
  intros Hne Hn. destruct servers as [|s l]; [congruence|].
  destruct depth; cbn [recursive_dns_lookup nested_call];
    unfold recursive_dns_lookup_body, dns_message_make_query, bind, emit;
    now rewrite Hn.
Qed.

(** A name that does not parse ends the call before anything is sent. *)
Lemma recursive_dns_lookup_bad_name depth target e T servers log :
  servers <> [] ->
  query_name from_text target = Raises e ->
  recursive_dns_lookup udp from_text depth target T servers log
  = (Raise e, log ++ [EvMakeQuery target T]).
Proof.
  intros Hne Hn. destruct servers as [|s l]; [congruence|].
  destruct depth; cbn [recursive_dns_lookup];
    unfold recursive_dns_lookup_body, dns_message_make_query, bind, emit;
    now rewrite Hn.
Qed.

Lemma after_asking_app log target n T l1 l2 :
  after_asking log target n T (l1 ++ l2)
  = after_asking log target n T l1 ++ sends (mkQuery n T) l2.
Proof.
  unfold after_asking. rewrite sends_app, <- app_assoc. reflexivity.
Qed.

(** The call runs past a prefix of its server list that lets it pass. *)
Lemma recursive_dns_lookup_passes_over depth target n T skipped rest log
    tn :
  rest <> [] ->
  query_name from_text target = Returns n ->
  passes_over udp (mkQuery n T) T skipped target
    (after_asking log target n T []) tn ->
  recursive_dns_lookup udp from_text depth target T (skipped ++ rest) log
  = for_server udp (nested_call udp from_text depth) (mkQuery n T) T rest
      tn (after_asking log target n T skipped).
Proof.
  intros Hne Hn Hpo. rewrite (recursive_dns_lookup_unfold _ _ n).
  - rewrite (for_server_passes_over _ _ _ _ _ _ _ _ _ Hpo).
    now rewrite <- after_asking_app.
  - destruct skipped; [assumption|discriminate].
  - assumption.
Qed.

(** A referral recurses with whatever the loop variable holds by then. *)
Lemma recursive_dns_lookup_referral depth target n T skipped server rest log
    tn r :
  query_name from_text target = Returns n ->
  passes_over udp (mkQuery n T) T skipped target
    (after_asking log target n T []) tn ->
  udp (after_asking log target n T skipped) (mkQuery n T) server 3
    = Returns r ->
  msg_answer r = [] ->
  msg_additional r <> [] ->
  recursive_dns_lookup udp from_text depth target T
    (skipped ++ server :: rest) log
  = nested_call udp from_text depth tn T
      (glue_addresses (msg_additional r))
      (after_asking log target n T (skipped ++ [server])).
Proof.
  intros Hn Hpo Hudp Hans Hadd.
  rewrite (recursive_dns_lookup_passes_over _ _ n _ _ (server :: rest) _ _
             ltac:(discriminate) Hn Hpo).
  rewrite after_asking_app.
  apply for_server_hands_over, ho_referral; assumption.
Qed.

(** Timeouts leave the loop variable alone. *)
Lemma passes_over_timeouts q T servers : forall tn log,
  (forall i server,
      servers !! i = Some server ->
      udp (log ++ sends q (take i servers)) q server 3 = Raises Timeout) ->
  passes_over udp q T servers tn log tn.
Proof.
  induction servers as [|s rest IH]; intros tn log Hall; [constructor|].
  apply po_timeout.
  - specialize (Hall 0%nat s eq_refl). cbn in Hall.
    now rewrite app_nil_r in Hall.
  - apply IH. intros i server Hi. specialize (Hall (S i) server Hi).
    cbn in Hall. now rewrite <- app_assoc.
Qed.

(** C7: with an empty server list the resolver returns NotFound at once,
    at every depth, for every name and type, and the log is untouched: no
    query was built and nothing was sent. *)
Theorem C7_empty_server_list depth target T log :
  recursive_dns_lookup udp from_text depth target T [] log
  = (Ret None, log).
Proof. destruct depth; reflexivity. Qed.

(** C3: resolving a type other than CNAME, when the scan of a response
    meets a CNAME record before any record of the requested type, the call
    returns exactly what the nested call for (the record's text without
    its last character, the same type, [ROOT_SERVERS]) returns; that
    string is the alias target when the text is the target followed by
    the dot of an absolute name. *)
Theorem C3_alias_restarts_at_root depth target n T skipped server rest log
    tn r pre c post :
  T <> rdatatype.CNAME ->
  query_name from_text target = Returns n ->
  passes_over udp (mkQuery n T) T skipped target
    (after_asking log target n T []) tn ->
  udp (after_asking log target n T skipped) (mkQuery n T) server 3
    = Returns r ->
  answer_records (msg_answer r) = pre ++ c :: post ->
  Forall (unusable T) pre ->
  rdtype c = rdatatype.CNAME ->
  recursive_dns_lookup udp from_text depth target T
    (skipped ++ server :: rest) log
  = nested_call udp from_text depth
      (NameText (Py.drop_last (rdata_str c))) T ROOT_SERVERS
      (after_asking log target n T (skipped ++ [server]))
  /\ (forall alias_target,
        rdata_str c = alias_target +:+ "." ->
        Py.drop_last (rdata_str c) = alias_target).
Proof.
  intros HT Hn Hpo Hudp Hrecs Hpre Hc. split.
  - rewrite (recursive_dns_lookup_passes_over _ _ n _ _ (server :: rest)
               _ _ ltac:(discriminate) Hn Hpo).
    rewrite after_asking_app.
    apply for_server_hands_over, ho_alias with r; [assumption| |].
    + destruct (msg_answer r); [|easy]. now destruct pre.
    + rewrite scan_answer_records, Hrecs. now apply scan_rrset_alias.
  - intros alias_target ->. apply drop_last_snoc.
Qed.

(** C9: a response whose answer records are all of another type and not
    aliases leaves [target_name] holding the last scanned record's text
    without its last character; when the servers asked next let the loop
    pass without touching it, a referral from a later server recurses
    with that string, not with the name the call received. *)
Theorem C9_unmatched_answers_replace_name depth target n T before s1
    between s2 rest log tn r1 recs last_rec r2 :
  query_name from_text target = Returns n ->
  passes_over udp (mkQuery n T) T before target
    (after_asking log target n T []) tn ->
  udp (after_asking log target n T before) (mkQuery n T) s1 3
    = Returns r1 ->
  answer_records (msg_answer r1) = recs ++ [last_rec] ->
  Forall (unusable T) (recs ++ [last_rec]) ->
  passes_over udp (mkQuery n T) T between
    (NameText (Py.drop_last (rdata_str last_rec)))
    (after_asking log target n T (before ++ [s1]))
    (NameText (Py.drop_last (rdata_str last_rec))) ->
  udp (after_asking log target n T (before ++ s1 :: between))
    (mkQuery n T) s2 3 = Returns r2 ->
  msg_answer r2 = [] ->
  msg_additional r2 <> [] ->
  recursive_dns_lookup udp from_text depth target T
    (before ++ s1 :: between ++ s2 :: rest) log
  = nested_call udp from_text depth
      (NameText (Py.drop_last (rdata_str last_rec))) T
      (glue_addresses (msg_additional r2))
      (after_asking log target n T (before ++ s1 :: between ++ [s2])).
Proof.
  intros Hn Hpo Hudp1 Hrecs Hall Hbetween Hudp2 Hans2 Hadd2.
  assert (Hpo1 : passes_over udp (mkQuery n T) T [s1] tn
                   (after_asking log target n T before)
                   (NameText (Py.drop_last (rdata_str last_rec)))).
  { apply po_no_match
      with (NameText (Py.drop_last (rdata_str last_rec))) r1;
      [assumption| | |constructor].
    - destruct (msg_answer r1); [|easy]. now destruct recs.
    - rewrite scan_answer_records, Hrecs, scan_rrset_unusable by assumption.
      rewrite List.map_app. cbn [List.map]. now rewrite List.last_last. }
  assert (Hprefix : passes_over udp (mkQuery n T) T
                      (before ++ s1 :: between) target
                      (after_asking log target n T [])
                      (NameText (Py.drop_last (rdata_str last_rec)))).
  { apply passes_over_app with tn; [assumption|].
    rewrite <- after_asking_app.
    change (s1 :: between) with ([s1] ++ between).
    apply passes_over_app with
      (NameText (Py.drop_last (rdata_str last_rec))); [assumption|].
    now rewrite <- after_asking_app. }
  replace (before ++ s1 :: between ++ s2 :: rest)
    with ((before ++ s1 :: between) ++ s2 :: rest)
    by now rewrite <- app_assoc.
  replace (before ++ s1 :: between ++ [s2])
    with ((before ++ s1 :: between) ++ [s2])
    by now rewrite <- app_assoc.
  rewrite (recursive_dns_lookup_passes_over _ _ n _ _ (s2 :: rest)
             _ _ ltac:(discriminate) Hn Hprefix).
  rewrite (after_asking_app _ _ _ _ (before ++ s1 :: between) [s2]).
  apply for_server_hands_over, ho_referral; assumption.
Qed.

(** C5 (as the code has it): a timeout makes the loop go on with the next
    address; any other exception of the transport call, a decoding failure
    included, is not caught: the call ends by raising it, right after that
    send, and the remaining addresses are not asked. *)
Theorem C5_only_timeouts_are_skipped depth target n T skipped server rest
    log tn e :
  query_name from_text target = Returns n ->
  passes_over udp (mkQuery n T) T skipped target
    (after_asking log target n T []) tn ->
  udp (after_asking log target n T skipped) (mkQuery n T) server 3
    = Raises e ->
  (e = Timeout ->
     recursive_dns_lookup udp from_text depth target T
       (skipped ++ server :: rest) log
     = for_server udp (nested_call udp from_text depth) (mkQuery n T) T
         rest tn (after_asking log target n T (skipped ++ [server])))
  /\ (e <> Timeout ->
     recursive_dns_lookup udp from_text depth target T
       (skipped ++ server :: rest) log
     = (Raise e, after_asking log target n T (skipped ++ [server]))).
Proof.
  intros Hn Hpo Hudp.
  rewrite (recursive_dns_lookup_passes_over _ _ n _ _ (server :: rest) _ _
             ltac:(discriminate) Hn Hpo).
  rewrite after_asking_app. split.
  - intros ->. now apply for_server_timeout.
  - intros Hne. now apply for_server_raise.
Qed.

(** C1 (as the code has it): when a call with a non-empty server list
    returns NotFound, it asked its servers in order without skipping any,
    and either it ran past all of them, or the first server that did not
    let it pass sent an alias or a referral, the nested resolution of that
    returned NotFound, and the servers after it were never asked. *)
Theorem C1_not_found_after_in_order_attempts depth target T servers log
    log' :
  servers <> [] ->
  recursive_dns_lookup udp from_text depth target T servers log
    = (Ret None, log') ->
  exists n,
    query_name from_text target = Returns n /\
    ((exists tn,
        passes_over udp (mkQuery n T) T servers target
          (after_asking log target n T []) tn /\
        log' = after_asking log target n T servers)
     \/ (exists tried server rest tn target' servers',
        servers = tried ++ server :: rest /\
        passes_over udp (mkQuery n T) T tried target
          (after_asking log target n T []) tn /\
        hands_over udp (mkQuery n T) T server tn
          (after_asking log target n T tried) target' servers' /\
        nested_call udp from_text depth target' T servers'
          (after_asking log target n T (tried ++ [server]))
        = (Ret None, log'))).
Proof.
  intros Hne Hrun.
  destruct (query_name from_text target) as [n|e] eqn:Hn.
  2:{ rewrite (recursive_dns_lookup_bad_name _ _ e) in Hrun by assumption.
      discriminate. }
  exists n. split; [reflexivity|].
  rewrite (recursive_dns_lookup_unfold _ _ n) in Hrun by assumption.
  apply for_server_not_found in Hrun.
  destruct Hrun as [(tn & Hpo & ->)
                   | (tried & server & rest & tn & n' & ss' & -> & Hpo
                      & Hho & Hrec)].
  - left. exists tn. split; [assumption|].
    now rewrite <- after_asking_app.
  - right. exists tried, server, rest, tn, n', ss'.
    rewrite <- !after_asking_app in *. auto.
Qed.

End ResolverFacts.
(** ** Glue extraction *)

Section GlueFacts.

Lemma ip_address_of_app last l1 l2 :
  ip_address_of last (l1 ++ l2)
  = ip_address_of last l1 ++ ip_address_of last l2.
Proof.
  induction l1 as [|t l1 IH]; [reflexivity|]. cbn.
  destruct (decide (t ≠ "A")); rewrite IH; reflexivity.
Qed.

Lemma ip_address_of_count last tokens :
  ip_address_of last tokens
  = repeat last (count_occ string_dec tokens "A").
Proof.
  induction tokens as [|t tokens IH]; [reflexivity|]. cbn.
  destruct (decide (t ≠ "A")) as [Hne|Heq], (string_dec t "A") as [Ht|Ht].
  - contradiction.
  - assumption.
  - cbn. now rewrite IH.
  - contradiction.
Qed.

Lemma ip_address_of_none last tokens :
  Forall (fun t => t <> "A") tokens ->
  ip_address_of last tokens = [].
Proof.
  induction 1 as [|t tokens Ht _ IH]; [reflexivity|]. cbn.
  destruct (decide (t ≠ "A")); [assumption|contradiction].
Qed.

(** The tokens of a record set whose records have one-token data. *)
Lemma tokens_of_simple_rrset owner ttl rdclass rdtype_text rdatas :
  is_token owner -> is_token ttl -> is_token rdclass ->
  is_token rdtype_text -> Forall is_token rdatas ->
  Py.split (rrset_to_text owner ttl rdclass rdtype_text rdatas)
  = flat_map (fun rdata => [owner; ttl; rdclass; rdtype_text; rdata])
      rdatas.
Proof.
  intros Ho Ht Hc Hy Hall. rewrite split_rrset_to_text by assumption.
  induction Hall as [|rdata rdatas Hr _ IH]; [reflexivity|].
  cbn [flat_map]. rewrite IH, split_token by assumption. reflexivity.
Qed.

Lemma ip_address_of_A_lines last owner ttl addrs :
  owner <> "A" -> ttl <> "A" -> Forall (fun a => a <> "A") addrs ->
  ip_address_of last
    (flat_map (fun a => [owner; ttl; "IN"; "A"; a]) addrs)
  = repeat last (length addrs).
Proof.
  intros Ho Ht. induction 1 as [|a addrs Ha _ IH]; [reflexivity|].
  cbn [flat_map]. rewrite ip_address_of_app, IH. cbn.
  destruct (decide (owner ≠ "A")); [|contradiction].
  destruct (decide (ttl ≠ "A")); [|contradiction].
  destruct (decide (a ≠ "A")); [|contradiction].
  reflexivity.
Qed.

Lemma last_item_lines owner ttl rdclass rdtype_text addrs last_addr :
  Py.last_item
    (flat_map (fun a => [owner; ttl; rdclass; rdtype_text; a])
       (addrs ++ [last_addr]))
  = last_addr.
Proof.
  unfold Py.last_item. rewrite flat_map_app. cbn [flat_map].
  rewrite app_nil_r.
  change [owner; ttl; rdclass; rdtype_text; last_addr]
    with ([owner; ttl; rdclass; rdtype_text] ++ [last_addr]).
  rewrite app_assoc. apply List.last_last.
Qed.

Ltac solve_token :=
  first [assumption | split; [discriminate | reflexivity]].

(** C10: glue extraction tokenizes the text of each additional record set
    and appends the text's last token once per token equal to "A".  So a
    set of several A records yields its last address once per record, a
    set of AAAA records yields nothing, and a set of another type whose
    text has a token "A" yields its last token, an address or not. *)
Theorem C10_glue_is_a_token_scan :
  (forall rrs,
      glue_of_rrset rrs
      = repeat (Py.last_item (Py.split (rrset_str rrs)))
          (count_occ string_dec (Py.split (rrset_str rrs)) "A"))
  /\ (forall additional,
      glue_addresses additional = flat_map glue_of_rrset additional)
  /\ (forall name items owner ttl addrs last_addr,
      is_token owner -> is_token ttl ->
      Forall is_token (addrs ++ [last_addr]) ->
      owner <> "A" -> ttl <> "A" ->
      Forall (fun a => a <> "A") (addrs ++ [last_addr]) ->
      glue_of_rrset
        (mkRRset name items
           (rrset_to_text owner ttl "IN" "A" (addrs ++ [last_addr])))
      = repeat last_addr (S (length addrs)))
  /\ (forall name items owner ttl addrs,
      is_token owner -> is_token ttl -> Forall is_token addrs ->
      owner <> "A" -> ttl <> "A" -> Forall (fun a => a <> "A") addrs ->
      glue_of_rrset
        (mkRRset name items (rrset_to_text owner ttl "IN" "AAAA" addrs))
      = [])
  /\ (forall rrs,
      In "A" (Py.split (rrset_str rrs)) ->
      In (Py.last_item (Py.split (rrset_str rrs))) (glue_of_rrset rrs))
  /\ glue_of_rrset
       (mkRRset "example.com."
          [mkRdata 47 "host.example.com. A MX RRSIG NSEC" 0 ""]
          "example.com. 3600 IN NSEC host.example.com. A MX RRSIG NSEC")
     = ["NSEC"].
Proof.
  split; [|split; [|split; [|split; [|split]]]].
  - intros rrs. apply ip_address_of_count.
  - induction additional as [|rrs additional IH]; cbn; congruence.
  - intros name items owner ttl addrs last_addr Ho Ht Hall HoA HtA HallA.
    unfold glue_of_rrset. cbn [rrset_str].
    rewrite tokens_of_simple_rrset by solve_token.
    rewrite last_item_lines, ip_address_of_A_lines by assumption.
    rewrite length_app. cbn [length]. now rewrite Nat.add_1_r.
  - intros name items owner ttl addrs Ho Ht Hall HoA HtA HallA.
    unfold glue_of_rrset. cbn [rrset_str].
    rewrite tokens_of_simple_rrset by solve_token.
    apply ip_address_of_none.
    induction HallA as [|a addrs Ha _ IH]; cbn [flat_map]; [constructor|].
    inversion Hall; subst.
    repeat (constructor; [assumption || discriminate|]). now apply IH.
  - intros rrs HA. unfold glue_of_rrset. rewrite ip_address_of_count.
    apply (count_occ_In string_dec) in HA.
    destruct (count_occ string_dec (Py.split (rrset_str rrs)) "A");
      [lia|now left].
  - reflexivity.
Qed.

End GlueFacts.

(** ** Runs on a hierarchy that never changes *)

Section Static.

Variable udp : list Event -> Query -> string -> Z -> Try Message.
Variable from_text : string -> Try string.
Hypothesis udp_static : static udp.

Lemma uniform_ret {A} (a : A) : uniform (ret a).
Proof. exists (Ret a), []. intros log. unfold ret. now rewrite app_nil_r. Qed.

Lemma uniform_raise {A} e : uniform (@raise A e).
Proof.
  exists (Raise e), []. intros log. unfold raise. now rewrite app_nil_r.
Qed.

Lemma uniform_out_of_depth {A} : uniform (@out_of_depth A).
Proof.
  exists OutOfDepth, []. intros log. unfold out_of_depth.
  now rewrite app_nil_r.
Qed.

Lemma uniform_emit ev : uniform (emit ev).
Proof. now exists (Ret tt), [ev]. Qed.

Lemma uniform_lift {A} (t : Try A) : uniform (lift t).
Proof. destruct t; [apply uniform_ret|apply uniform_raise]. Qed.

Lemma uniform_bind {A B} (m : M A) (k : A -> M B) :
  uniform m -> (forall a, uniform (k a)) -> uniform (bind m k).
Proof.
  intros (o & evs & Hm) Hk. destruct o as [a| e|].
  - destruct (Hk a) as (o' & evs' & Hka). exists o', (evs ++ evs').
    intros log. unfold bind. now rewrite Hm, Hka, app_assoc.
  - exists (Raise e), evs. intros log. unfold bind. now rewrite Hm.
  - exists OutOfDepth, evs. intros log. unfold bind. now rewrite Hm.
Qed.

Lemma uniform_udp q server timeout :
  uniform (except_timeout (dns_query_udp udp q server timeout)).
Proof.
  unfold except_timeout, dns_query_udp.
  destruct (udp [] q server timeout) as [r|e] eqn:Hudp.
  - exists (Ret (Some r)), [EvUdp q server timeout]. intros log.
    now rewrite (udp_static log []), Hudp.
  - exists (match e with Timeout => Ret None | _ => Raise e end),
      [EvUdp q server timeout].
    intros log. rewrite (udp_static log []), Hudp. now destruct e.
Qed.

Lemma uniform_for_server recurse q T servers :
  (forall tn ss, uniform (recurse tn T ss)) ->
  forall tn, uniform (for_server udp recurse q T servers tn).
Proof.
  intros Hrec. induction servers as [|server rest IH]; intros tn;
    cbn [for_server]; [apply uniform_ret|].
  apply uniform_bind; [apply uniform_udp|].
  intros [r|]; [|apply IH].
  destruct (msg_answer r).
  - destruct (msg_additional r); auto.
  - destruct (scan_answer T _ tn); auto using uniform_ret.
Qed.

Lemma uniform_recursive_dns_lookup depth :
  forall target T servers,
    uniform (recursive_dns_lookup udp from_text depth target T servers).
Proof.
  induction depth as [|depth IH]; intros target T servers;
    cbn [recursive_dns_lookup]; unfold recursive_dns_lookup_body;
    (destruct servers as [|s l]; [apply uniform_ret|]);
    (apply uniform_bind;
     [ unfold dns_message_make_query;
       apply uniform_bind; [apply uniform_emit|]; intros _;
       apply uniform_bind; [apply uniform_lift|]; intros n;
       apply uniform_ret
     | intros q; apply uniform_for_server; intros tn ss ]).
  - apply uniform_out_of_depth.
  - apply IH.
Qed.

Lemma uniform_collect_results depth name :
  uniform (collect_results udp from_text depth name).
Proof.
  unfold collect_results, dns_name_from_text, lookup.
  repeat (apply uniform_bind;
          [first [apply uniform_lift | apply uniform_recursive_dns_lookup]
          |intros ?]).
  apply uniform_ret.
Qed.

End Static.

(** ** The result collector and the cached loop of [main] *)

Section CollectorFacts.

Variable udp : list Event -> Query -> string -> Z -> Try Message.
Variable from_text : string -> Try string.

Lemma for_each_log {A} (body : A -> M unit) (ev : A -> list Event) l :
  (forall x log, body x log = (Ret tt, log ++ ev x)) ->
  forall log, for_each l body log = (Ret tt, log ++ flat_map ev l).
Proof.
  intros Hbody. induction l as [|x l IH]; intros log; cbn.
  - now rewrite app_nil_r.
  - unfold bind. rewrite Hbody, IH. now rewrite <- app_assoc.
Qed.

(** A loop whose every step either returns after adding its events or
    raises: it returns after adding all of them, or it raises. *)
Lemma for_each_cases {A} (P : Exception -> Prop) (body : A -> M unit)
    (ev : A -> list Event) l :
  (forall x,
      (forall log, body x log = (Ret tt, log ++ ev x))
      \/ (exists e events,
            P e /\ forall log, body x log = (Raise e, log ++ events))) ->
  (forall log, for_each l body log = (Ret tt, log ++ flat_map ev l))
  \/ (exists e events,
        P e /\ forall log, for_each l body log = (Raise e, log ++ events)).
Proof.
  intros Hbody. induction l as [|x l IH].
  - left. intros log. cbn. unfold ret. now rewrite app_nil_r.
  - destruct (Hbody x) as [Hok|(e & events & He & Hraise)].
    + destruct IH as [Hall|(e & events & He & Hraise)].
      * left. intros log. cbn [for_each flat_map]. unfold bind.
        now rewrite Hok, Hall, app_assoc.
      * right. exists e, (ev x ++ events). split; [assumption|].
        intros log. cbn [for_each]. unfold bind.
        now rewrite Hok, Hraise, app_assoc.
    + right. exists e, events. split; [assumption|].
      intros log. cbn [for_each]. unfold bind. now rewrite Hraise.
Qed.

Lemma for_each_log_in {A} (body : A -> M unit) (ev : A -> list Event) l :
  (forall x, In x l -> forall log, body x log = (Ret tt, log ++ ev x)) ->
  forall log, for_each l body log = (Ret tt, log ++ flat_map ev l).
Proof.
  induction l as [|x l IH]; intros Hbody log; cbn.
  - unfold ret. now rewrite app_nil_r.
  - unfold bind. rewrite Hbody by now left.
    rewrite IH by (intros y Hy; apply Hbody; now right).
    now rewrite <- app_assoc.
Qed.

(** [str.format] raises nothing but [KeyError]. *)
Lemma str_format_raises fmt_str result e :
  str_format fmt_str result = Raises e -> exists key, e = KeyError key.
Proof.
  unfold str_format. induction (format_fields fmt_str) as [|field rest IH];
    cbn; [discriminate|].
  destruct (result !! field); [|intros [= <-]; now exists field].
  destruct (format_values rest result); [discriminate|].
  intros [= <-]. now apply IH.
Qed.

(** [print_results] prints all the lines of the result, or raises a
    [KeyError]; which of the two does not depend on the log. *)
Lemma print_results_cases results :
  (forall log, print_results results log = (Ret tt, log ++ printed results))
  \/ (exists e events,
        (exists key, e = KeyError key)
        /\ forall log, print_results results log = (Raise e, log ++ events)).
Proof.
  unfold print_results, printed. apply for_each_cases.
  intros [rtype fmt_str]. apply for_each_cases. intros result.
  destruct (str_format fmt_str result) as [values|e] eqn:Hformat.
  - left. intros log. reflexivity.
  - right. exists e, []. split; [eapply str_format_raises, Hformat|].
    intros log. unfold bind, lift, raise. now rewrite app_nil_r.
Qed.

(** Once it has returned for a result, it returns for it from every log. *)
Lemma print_results_returned results log log' :
  print_results results log = (Ret tt, log') ->
  forall log2, print_results results log2 = (Ret tt, log2 ++ printed results).
Proof.
  intros Hrun.
  destruct (print_results_cases results) as [Hall|(e & events & _ & Hraise)];
    [assumption|].
  rewrite Hraise in Hrun. discriminate.
Qed.

Lemma print_results_log results log :
  printable results ->
  print_results results log = (Ret tt, log ++ printed results).
Proof.
  intros Hprintable. unfold print_results, printed.
  apply for_each_log_in. intros [rtype fmt_str] Hfmt log0.
  apply for_each_log_in. intros result Hresult log1.
  destruct (Hprintable rtype fmt_str result Hfmt Hresult) as [values Hvalues].
  unfold bind. now rewrite Hvalues.
Qed.

Lemma printed_not_network results :
  Forall (fun ev => is_network_event ev = false) (printed results).
Proof.
  unfold printed. apply Forall_flat_map, Forall_forall.
  intros [rtype fmt_str] _. apply Forall_flat_map, Forall_forall.
  intros result _. now constructor.
Qed.

(** C8 (as the code has it): when the name parses and each of the four
    resolutions returns, a response or NotFound, [collect_results] returns
    a mapping whose keys are exactly CNAME, A, AAAA and MX, each bound to
    the list reshaped from its response, which is the empty list where the
    resolution returned NotFound. *)
Theorem C8_exactly_four_type_tags depth name log n
    r_cname l1 r_a l2 r_aaaa l3 r_mx l4 :
  from_text name = Returns n ->
  lookup udp from_text depth (NameObject n) rdatatype.CNAME log
    = (Ret r_cname, l1) ->
  lookup udp from_text depth (NameObject n) rdatatype.A l1
    = (Ret r_a, l2) ->
  lookup udp from_text depth (NameObject n) rdatatype.AAAA l2
    = (Ret r_aaaa, l3) ->
  lookup udp from_text depth (NameObject n) rdatatype.MX l3
    = (Ret r_mx, l4) ->
  exists full_response : gmap string (list (gmap string Value)),
    collect_results udp from_text depth name log = (Ret full_response, l4)
    /\ dom full_response = {[ "CNAME"; "A"; "AAAA"; "MX" ]}
    /\ full_response !! "CNAME" = Some (cname_records name r_cname)
    /\ full_response !! "A" = Some (address_records 1 r_a)
    /\ full_response !! "AAAA" = Some (address_records 28 r_aaaa)
    /\ full_response !! "MX" = Some (mx_records r_mx)
    /\ (r_cname = None -> full_response !! "CNAME" = Some [])
    /\ (r_a = None -> full_response !! "A" = Some [])
    /\ (r_aaaa = None -> full_response !! "AAAA" = Some [])
    /\ (r_mx = None -> full_response !! "MX" = Some []).
Proof.
  intros Hname H1 H2 H3 H4.
  unfold collect_results, dns_name_from_text, bind.
  rewrite Hname. cbn [lift ret]. rewrite H1, H2, H3, H4.
  eexists. split; [reflexivity|].
  split; [rewrite !dom_insert_L, dom_empty_L; set_solver|].
  repeat split; try (now simplify_map_eq);
    intros ->; now simplify_map_eq.
Qed.


End CollectorFacts.

(** ** The properties on concrete hierarchies *)

Section Instances.

Import Scenario Run.

(** C2: the CNAME list is not filtered by type.  Below a DNAME the answer
    to the CNAME query holds the DNAME record (type 39) before the
    synthesized CNAME; the resolver returns that response, and
    [collect_results] lists both records under "CNAME". *)
Theorem C2_cname_list_keeps_other_types :
  fst (collect_results dname_net parse 0 "www.sub.example.com" [])
  = Ret dname_results
  /\ dname_results !! "CNAME"
     = Some [ {[ "name" := VRdata dname_record;
                 "alias" := VStr "www.sub.example.com" ]};
              {[ "name" := VRdata synthesized_cname;
                 "alias" := VStr "www.sub.example.com" ]} ]
  /\ rdtype dname_record = 39
  /\ rdtype dname_record <> rdatatype.CNAME.
Proof. repeat split; try reflexivity. discriminate. Qed.

(** C4: a referral does not always recurse with the name the call
    received.  Asked for the address of example.com, the first server
    answers with an MX record only and the second sends a referral: the
    nested call asks the glue address about "10 mail.example.com", the MX
    record's text, and finds nothing, while the same referral reached with
    the name intact leads to the address. *)
Theorem C4_referral_after_unmatched_answer_changes_name :
  recursive_dns_lookup mx_then_referral_net parse 1
    (NameObject "example.com") 1 ["192.0.2.1"; "192.0.2.2"] []
  = (Ret None,
     [EvMakeQuery (NameObject "example.com") 1;
      EvUdp (mkQuery "example.com" 1) "192.0.2.1" 3;
      EvUdp (mkQuery "example.com" 1) "192.0.2.2" 3;
      EvMakeQuery (NameText "10 mail.example.com") 1;
      EvUdp (mkQuery "10 mail.example.com" 1) "192.0.2.53" 3])
  /\ recursive_dns_lookup mx_then_referral_net parse 1
       (NameObject "example.com") 1 ["192.0.2.2"] []
     = (Ret (Some a_answer),
        [EvMakeQuery (NameObject "example.com") 1;
         EvUdp (mkQuery "example.com" 1) "192.0.2.2" 3;
         EvMakeQuery (NameObject "example.com") 1;
         EvUdp (mkQuery "example.com" 1) "192.0.2.53" 3]).
Proof. split; reflexivity. Qed.

(** NotFound is returned although the second address was never asked:
    after a referral without IPv4 glue, and after a referral to a server
    that is down.  Asked alone, the second address has the answer. *)
Lemma C1_counterexample :
  recursive_dns_lookup glueless_net parse 1 (NameObject "example.com") 1
    ["192.0.2.1"; "192.0.2.2"] []
  = (Ret None,
     [EvMakeQuery (NameObject "example.com") 1;
      EvUdp (mkQuery "example.com" 1) "192.0.2.1" 3])
  /\ recursive_dns_lookup dead_glue_net parse 1 (NameObject "example.com")
       1 ["192.0.2.1"; "192.0.2.2"] []
     = (Ret None,
        [EvMakeQuery (NameObject "example.com") 1;
         EvUdp (mkQuery "example.com" 1) "192.0.2.1" 3;
         EvMakeQuery (NameObject "example.com") 1;
         EvUdp (mkQuery "example.com" 1) "192.0.2.53" 3])
  /\ recursive_dns_lookup glueless_net parse 1 (NameObject "example.com")
       1 ["192.0.2.2"] []
     = (Ret (Some a_answer),
        [EvMakeQuery (NameObject "example.com") 1;
         EvUdp (mkQuery "example.com" 1) "192.0.2.2" 3]).
Proof. repeat split; reflexivity. Qed.

Lemma C1_witness :
  exists n,
    query_name parse (NameObject "example.com") = Returns n /\
    ((exists tn,
        passes_over silent_net (mkQuery n 1) 1
          ["192.0.2.1"; "192.0.2.2"] (NameObject "example.com")
          (after_asking [] (NameObject "example.com") n 1 []) tn /\
        after_asking [] (NameObject "example.com") "example.com" 1
          ["192.0.2.1"; "192.0.2.2"]
        = after_asking [] (NameObject "example.com") n 1
            ["192.0.2.1"; "192.0.2.2"])
     \/ (exists tried server rest tn target' servers',
        ["192.0.2.1"; "192.0.2.2"] = tried ++ server :: rest /\
        passes_over silent_net (mkQuery n 1) 1 tried
          (NameObject "example.com")
          (after_asking [] (NameObject "example.com") n 1 []) tn /\
        hands_over silent_net (mkQuery n 1) 1 server tn
          (after_asking [] (NameObject "example.com") n 1 tried)
          target' servers' /\
        nested_call silent_net parse 0 target' 1 servers'
          (after_asking [] (NameObject "example.com") n 1
             (tried ++ [server]))
        = (Ret None,
           after_asking [] (NameObject "example.com") "example.com" 1
             ["192.0.2.1"; "192.0.2.2"]))).
Proof.
  apply (C1_not_found_after_in_order_attempts silent_net parse 0
           (NameObject "example.com") 1 ["192.0.2.1"; "192.0.2.2"] []);
    [discriminate|reflexivity].
Defined.

Lemma C3_witness :
  recursive_dns_lookup alias_net parse 1 (NameObject "www.example.com") 1
    ["192.0.2.1"; "192.0.2.2"] []
  = recursive_dns_lookup alias_net parse 0 (NameText "example.com") 1
      ROOT_SERVERS
      [EvMakeQuery (NameObject "www.example.com") 1;
       EvUdp (mkQuery "www.example.com" 1) "192.0.2.1" 3].
Proof.
  apply (C3_alias_restarts_at_root alias_net parse 1
           (NameObject "www.example.com") "www.example.com" 1
           [] "192.0.2.1" ["192.0.2.2"] [] (NameObject "www.example.com")
           cname_answer [] cname_record []);
    [discriminate|reflexivity|constructor|reflexivity|reflexivity
    |constructor|reflexivity].
Defined.

(** A decoding failure at the first address ends the call: the exception
    reaches the caller and the second address, which has the answer, is
    not asked.  A timeout at the first address does not. *)
Lemma C5_counterexample :
  recursive_dns_lookup malformed_net parse 1 (NameObject "example.com") 1
    ["192.0.2.1"; "192.0.2.2"] []
  = (Raise FormError,
     [EvMakeQuery (NameObject "example.com") 1;
      EvUdp (mkQuery "example.com" 1) "192.0.2.1" 3])
  /\ recursive_dns_lookup lagging_net parse 1 (NameObject "example.com") 1
       ["192.0.2.1"; "192.0.2.2"] []
     = (Ret (Some a_answer),
        [EvMakeQuery (NameObject "example.com") 1;
         EvUdp (mkQuery "example.com" 1) "192.0.2.1" 3;
         EvUdp (mkQuery "example.com" 1) "192.0.2.2" 3]).
Proof. split; reflexivity. Qed.

Lemma C5_witness :
  recursive_dns_lookup malformed_net parse 1 (NameObject "example.com") 1
    ["192.0.2.1"; "192.0.2.2"] []
  = (Raise FormError,
     after_asking [] (NameObject "example.com") "example.com" 1
       ["192.0.2.1"]).
Proof.
  apply (C5_only_timeouts_are_skipped malformed_net parse 1
           (NameObject "example.com") "example.com" 1
           [] "192.0.2.1" ["192.0.2.2"] [] (NameObject "example.com")
           FormError);
    [reflexivity|constructor|reflexivity|discriminate].
Defined.



Lemma C8_witness :
  exists full_response : gmap string (list (gmap string Value)),
    collect_results static_net parse 0 "example.com" []
    = (Ret full_response, snd first_collect)
    /\ dom full_response = {[ "CNAME"; "A"; "AAAA"; "MX" ]}
    /\ full_response !! "CNAME" = Some [].
Proof.
  destruct (C8_exactly_four_type_tags static_net parse 0 "example.com" []
              "example.com"
              None (snd cname_lookup)
              (Some a_answer) (snd a_lookup)
              (Some aaaa_answer) (snd aaaa_lookup)
              (Some mx_answer) (snd first_collect)
              eq_refl eq_refl eq_refl eq_refl eq_refl)
    as (full_response & Hrun & Hdom & _ & _ & _ & _ & Hnone & _).
  exists full_response. repeat split; auto.
Defined.

Lemma C9_witness :
  recursive_dns_lookup mx_then_referral_net parse 1
    (NameObject "example.com") 1 ["192.0.2.1"; "192.0.2.2"] []
  = recursive_dns_lookup mx_then_referral_net parse 0
      (NameText "10 mail.example.com") 1 ["192.0.2.53"]
      (after_asking [] (NameObject "example.com") "example.com" 1
         ["192.0.2.1"; "192.0.2.2"]).
Proof.
  apply (C9_unmatched_answers_replace_name mx_then_referral_net parse 1
           (NameObject "example.com") "example.com" 1 []
           "192.0.2.1" [] "192.0.2.2" [] [] (NameObject "example.com")
           mx_answer [] mx_record a_glue_referral);
    [reflexivity|constructor|reflexivity|reflexivity| |constructor
    |reflexivity|reflexivity|discriminate].
  repeat constructor; discriminate.
Defined.

Lemma C10_witness :
  glue_of_rrset
    (mkRRset "a.iana-servers.net." []
       (rrset_to_text "a.iana-servers.net." "172800" "IN" "A"
          ["192.0.2.1"; "192.0.2.53"]))
  = ["192.0.2.53"; "192.0.2.53"].
Proof.
  apply (proj1 (proj2 (proj2 C10_glue_is_a_token_scan))
           "a.iana-servers.net." [] "a.iana-servers.net." "172800"
           ["192.0.2.1"] "192.0.2.53");
    repeat first [ discriminate | reflexivity | constructor ].
Defined.

End Instances.

(** ** Invariants of a resolution *)

Section ResolutionInvariants.

Variable udp : list Event -> Query -> string -> Z -> Try Message.
Variable from_text : string -> Try string.

Lemma scan_rrset_return T l : forall tn,
  scan_rrset T l tn = ScanReturn -> Exists (fun x => rdtype x = T) l.
Proof.
  induction l as [|x l IH]; intros tn Hscan; [discriminate|].
  cbn in Hscan. destruct (Z.eqb_spec (rdtype x) T) as [Heq|Hne].
  - now left.
  - cbn in Hscan. destruct (rdtype x =? 5); [discriminate|].
    right. eapply IH, Hscan.
Qed.

Lemma resolution_inv_done T log :
  resolution_inv udp from_text T log (Ret None, log).
Proof.
  repeat split; try discriminate.
  exists []. cbn. now rewrite app_nil_r.
Qed.

Lemma resolution_inv_out_of_depth T log :
  resolution_inv udp from_text T log (OutOfDepth, log).
Proof.
  repeat split; try discriminate.
  exists []. cbn. now rewrite app_nil_r.
Qed.

(** An invariant from a later history is one from an earlier history, when
    the events in between are events of the resolution. *)
Lemma resolution_inv_step T log ev run :
  event_for_type T ev ->
  resolution_inv udp from_text T (log ++ [ev]) run ->
  resolution_inv udp from_text T log run.
Proof.
  intros Hev ((events & Hlog & Hall) & Hret & Hraise).
  repeat split; try assumption; try (now apply Hret).
  exists (ev :: events). split; [now rewrite Hlog, <- app_assoc|].
  now constructor.
Qed.

Lemma for_server_inv recurse q T servers :
  q_type q = T ->
  (forall tn ss log, resolution_inv udp from_text T log (recurse tn T ss log)) ->
  forall tn log,
    resolution_inv udp from_text T log
      (for_server udp recurse q T servers tn log).
Proof.
  intros Hq Hrec. induction servers as [|server rest IH]; intros tn log;
    [apply resolution_inv_done|].
  apply resolution_inv_step with (EvUdp q server 3); [now split|].
  destruct (udp log q server 3) as [r|e] eqn:Hudp.
  - rewrite (for_server_reply udp _ _ _ _ _ _ _ _ Hudp).
    destruct (msg_answer r) as [|rrs answer] eqn:Hans.
    + destruct (msg_additional r); auto.
    + destruct (scan_answer T (rrs :: answer) tn) eqn:Hscan; auto.
      split; [exists []; cbn; now rewrite app_nil_r|].
      split; [|intros e He; discriminate].
      intros r0 Hr0. cbn in Hr0. injection Hr0 as <-. split.
      * now exists log, q, server.
      * rewrite Hans. rewrite scan_answer_records in Hscan.
        eapply scan_rrset_return, Hscan.
  - destruct (decide (e = Timeout)) as [->|Hne].
    + rewrite for_server_timeout by assumption. apply IH.
    + rewrite (for_server_raise udp _ _ _ _ _ _ _ _ Hudp Hne).
      repeat split; try discriminate.
      * exists []. cbn. now rewrite app_nil_r.
      * intros e' [= <-]. right. split; [assumption|].
        now exists log, q, server.
Qed.

Lemma recursive_dns_lookup_inv depth : forall target T servers log,
  resolution_inv udp from_text T log
    (recursive_dns_lookup udp from_text depth target T servers log).
Proof.
  induction depth as [|depth IH]; intros target T servers log;
    (destruct servers as [|s l]; [apply resolution_inv_done|]);
    cbn [recursive_dns_lookup];
    unfold recursive_dns_lookup_body, dns_message_make_query, bind, emit;
    apply resolution_inv_step with (EvMakeQuery target T); try reflexivity;
    (destruct (query_name from_text target) as [n|e] eqn:Hn; cbn [lift];
     [ unfold ret; apply for_server_inv; [reflexivity|]
     | unfold raise; repeat split; try discriminate;
       [ exists []; cbn; now rewrite app_nil_r
       | intros e' [= <-]; left; destruct target as [n|text];
         [discriminate|now exists text] ] ]).
  - intros tn ss log0. apply resolution_inv_out_of_depth.
  - intros tn ss log0. apply IH.
Qed.

End ResolutionInvariants.

(** ** What a resolution returns, sends and raises *)

Section ResolutionResults.

Variable udp : list Event -> Query -> string -> Z -> Try Message.
Variable from_text : string -> Try string.

Lemma scan_rrset_found T pre c post tn :
  Forall (unusable T) pre ->
  rdtype c = T ->
  scan_rrset T (pre ++ c :: post) tn = ScanReturn.
Proof.
  intros Hpre Hc. rewrite scan_rrset_app, scan_rrset_unusable by assumption.
  cbn. now rewrite Hc, Z.eqb_refl.
Qed.

(** X1: the first record of the requested type wins.  When a server's
    answer section has a record of the requested type before any CNAME
    record, the call returns that server's response as it is, right after
    that send: the rest of the answer section is not scanned and the
    servers after it are not asked. *)
Theorem X1_first_matching_record_returns_the_response depth target n T
    skipped server rest log tn r pre c post :
  query_name from_text target = Returns n ->
  passes_over udp (mkQuery n T) T skipped target
    (after_asking log target n T []) tn ->
  udp (after_asking log target n T skipped) (mkQuery n T) server 3
    = Returns r ->
  answer_records (msg_answer r) = pre ++ c :: post ->
  Forall (unusable T) pre ->
  rdtype c = T ->
  recursive_dns_lookup udp from_text depth target T
    (skipped ++ server :: rest) log
  = (Ret (Some r), after_asking log target n T (skipped ++ [server])).
Proof.
  intros Hn Hpo Hudp Hrecs Hpre Hc.
  rewrite (recursive_dns_lookup_passes_over _ _ _ _ n _ _ (server :: rest)
             _ _ ltac:(discriminate) Hn Hpo).
  rewrite after_asking_app, (for_server_reply udp _ _ _ _ _ _ _ _ Hudp).
  rewrite scan_answer_records, Hrecs, scan_rrset_found by assumption.
  destruct (msg_answer r); [now destruct pre|reflexivity].
Qed.

(** X2: a response the resolver returns is one that some server sent in
    reply to a query for the requested type, and its answer section holds at
    least one record of that type, however many aliases and referrals were
    followed to reach it. *)
Theorem X2_returned_response_answers_the_type depth target T servers log r
    log' :
  recursive_dns_lookup udp from_text depth target T servers log
    = (Ret (Some r), log') ->
  received udp T r
  /\ Exists (fun x => rdtype x = T) (answer_records (msg_answer r)).
Proof.
  intros Hrun.
  destruct (recursive_dns_lookup_inv udp from_text depth target T servers log)
    as (_ & Hret & _).
  apply Hret. now rewrite Hrun.
Qed.

(** X3: a resolution only adds to the log, and everything it adds is for
    the type it was called with: every query it builds, in nested calls too,
    is for that type, and every datagram asks for that type with the
    deadline of three seconds. *)
Theorem X3_resolution_asks_only_for_its_type depth target T servers log :
  exists events,
    snd (recursive_dns_lookup udp from_text depth target T servers log)
    = log ++ events
    /\ Forall (event_for_type T) events.
Proof.
  destruct (recursive_dns_lookup_inv udp from_text depth target T servers
              log) as ((events & Hlog & Hall) & _).
  exists events. split; assumption.
Qed.

(** X4: an exception that ends a resolution was raised by the parsing of a
    name or by a send, and a send's timeout never is: the resolver ends with
    a timeout only if the name parser raised one. *)
Theorem X4_timeouts_of_servers_never_surface depth target T servers log e
    log' :
  recursive_dns_lookup udp from_text depth target T servers log
    = (Raise e, log') ->
  raised_by_collaborator udp from_text e
  /\ (e = Timeout -> exists text, from_text text = Raises Timeout).
Proof.
  intros Hrun.
  destruct (recursive_dns_lookup_inv udp from_text depth target T servers log)
    as (_ & _ & Hraise).
  specialize (Hraise e). rewrite Hrun in Hraise.
  specialize (Hraise eq_refl). split; [assumption|].
  intros ->. destruct Hraise as [Hparse|[Hne _]]; [assumption|congruence].
Qed.

(** X5: when every server of a non-empty list times out or sends nothing
    usable, the call returns NotFound after asking each of them once, in
    order, always with the query it built from the name it received, also
    when unmatched answers have overwritten [target_name] in between. *)
Theorem X5_exhausted_list_is_not_found depth target n T servers log tn :
  servers <> [] ->
  query_name from_text target = Returns n ->
  passes_over udp (mkQuery n T) T servers target
    (after_asking log target n T []) tn ->
  recursive_dns_lookup udp from_text depth target T servers log
  = (Ret None, after_asking log target n T servers).
Proof.
  intros Hne Hn Hpo.
  rewrite (recursive_dns_lookup_unfold _ _ _ _ n) by assumption.
  pose proof (for_server_passes_over udp (nested_call udp from_text depth)
                _ _ _ [] _ _ _ Hpo) as Hloop.
  rewrite app_nil_r in Hloop. rewrite Hloop.
  cbn [for_server]. unfold ret. now rewrite <- after_asking_app.
Qed.

(** X6: a referral from which no glue address is extracted ends the call
    with NotFound: the nested call gets an empty server list, so no query is
    built and nothing more is sent. *)
Theorem X6_referral_without_glue_is_not_found depth target n T skipped
    server rest log tn r :
  query_name from_text target = Returns n ->
  passes_over udp (mkQuery n T) T skipped target
    (after_asking log target n T []) tn ->
  udp (after_asking log target n T skipped) (mkQuery n T) server 3
    = Returns r ->
  msg_answer r = [] ->
  msg_additional r <> [] ->
  glue_addresses (msg_additional r) = [] ->
  recursive_dns_lookup udp from_text (S depth) target T
    (skipped ++ server :: rest) log
  = (Ret None, after_asking log target n T (skipped ++ [server])).
Proof.
  intros Hn Hpo Hudp Hans Hadd Hglue.
  rewrite (recursive_dns_lookup_referral _ _ _ _ n _ _ _ _ _ tn r)
    by assumption.
  rewrite Hglue. cbn [nested_call]. now destruct depth.
Qed.

(** X7: a resolution for CNAME never takes the alias restart.  Its scan
    returns the response as soon as the answer section has a CNAME record,
    wherever it stands, and otherwise runs to the end, leaving [target_name]
    at the last record's text without its last character. *)
Theorem X7_cname_query_never_restarts answer tn :
  scan_answer rdatatype.CNAME answer tn
  = if existsb (fun x => rdtype x =? rdatatype.CNAME) (answer_records answer)
    then ScanReturn
    else ScanNext
           (List.last
              (List.map (fun x => NameText (Py.drop_last (rdata_str x)))
                 (answer_records answer))
              tn).
Proof.
  rewrite scan_answer_records. unfold rdatatype.CNAME.
  generalize (answer_records answer) as l. intros l. revert tn.
  induction l as [|x l IH]; intros tn; [reflexivity|].
  cbn [scan_rrset existsb]. destruct (rdtype x =? 5); [reflexivity|].
  cbn [negb orb]. rewrite IH.
  destruct (existsb _ l); [reflexivity|].
  destruct l as [|y l]; [reflexivity|].
  cbn [List.map List.last]. f_equal. apply last_cons_default.
Qed.

End ResolutionResults.

(** ** Glue addresses *)

Section GlueMembership.

Lemma in_repeat {A} (x y : A) n : In y (repeat x n) <-> (n > 0)%nat /\ y = x.
Proof.
  induction n as [|n IH]; cbn; [intuition lia|].
  rewrite IH. intuition (auto; lia).
Qed.

(** X15: the glue addresses are exactly the last tokens of those additional
    record sets whose text has a token "A": nothing else in a record set's
    text, and no record set without such a token, contributes an address. *)
Theorem X15_glue_addresses_are_last_tokens additional a :
  In a (glue_addresses additional)
  <-> exists rrs,
        In rrs additional
        /\ In "A" (Py.split (rrset_str rrs))
        /\ a = Py.last_item (Py.split (rrset_str rrs)).
Proof.
  induction additional as [|rrs additional IH]; cbn [glue_addresses].
  - split; [intros []|intros (rrs & [] & _)].
  - rewrite in_app_iff, IH. unfold glue_of_rrset at 1.
    rewrite ip_address_of_count, in_repeat.
    rewrite <- (count_occ_In string_dec). split.
    + intros [[Hcount ->]|(rrs' & Hin & HA & ->)].
      * exists rrs. repeat split; [now left|assumption].
      * exists rrs'. repeat split; [now right|assumption].
    + intros (rrs' & [<-|Hin] & HA & ->).
      * left. now split.
      * right. now exists rrs'.
Qed.

End GlueMembership.

(** ** Printing *)

Section PrintFacts.

Local Set Warnings "-clear-no-such-hyp".

Lemma flat_map_singleton {A B} (f : A -> B) l :
  flat_map (fun x => [f x]) l = List.map f l.
Proof. induction l as [|x l IH]; cbn; congruence. Qed.

Lemma printed_lines results :
  printed results
  = lines_of "{alias} is an alias for {name}"
      (default [] (results !! "CNAME"))
    ++ lines_of "{name} has address {address}"
         (default [] (results !! "A"))
    ++ lines_of "{name} has IPv6 address {address}"
         (default [] (results !! "AAAA"))
    ++ lines_of "{name} mail is handled by {preference} {exchange}"
         (default [] (results !! "MX")).
Proof.
  unfold printed, FORMATS, lines_of. cbn [flat_map].
  now rewrite !flat_map_singleton, app_nil_r.
Qed.

Lemma bind_raises {A B} (m : M A) (k : A -> M B) e log log' :
  m log = (Raise e, log') -> bind m k log = (Raise e, log').
Proof. intros Hm. unfold bind. now rewrite Hm. Qed.

(** X8: [print_results] prints, in this order, one line per CNAME record,
    per A record, per AAAA record and per MX record of the result, each
    group in list order, and returns, when every record has the keys its
    template names; otherwise it ends with a [KeyError], as it does at once
    for a first CNAME record without the key "alias".  A type that is not a
    key of the result prints nothing, and keys other than these four are
    never read. *)
Theorem X8_print_results_prints_the_four_lists_in_order results log :
  (printable results ->
   print_results results log
   = (Ret tt,
      log
      ++ lines_of "{alias} is an alias for {name}"
           (default [] (results !! "CNAME"))
      ++ lines_of "{name} has address {address}"
           (default [] (results !! "A"))
      ++ lines_of "{name} has IPv6 address {address}"
           (default [] (results !! "AAAA"))
      ++ lines_of "{name} mail is handled by {preference} {exchange}"
           (default [] (results !! "MX"))))
  /\ (print_results results log = (Ret tt, log ++ printed results)
      \/ exists key events,
           print_results results log = (Raise (KeyError key), log ++ events))
  /\ (forall record more,
        results !! "CNAME" = Some (record :: more) ->
        record !! "alias" = None ->
        print_results results log = (Raise (KeyError "alias"), log))
  /\ (forall key records,
        key ∉ four_tags ->
        print_results (<[key := records]> results) log
        = print_results results log).
Proof.
  repeat split.
  - intros Hprintable. now rewrite print_results_log, printed_lines.
  - destruct (print_results_cases results)
      as [Hall|(e & events & [key ->] & Hraise)]; [now left|].
    right. now exists key, events.
  - intros record more Hcname Halias.
    unfold print_results, FORMATS. cbn [for_each]. apply bind_raises.
    rewrite Hcname. change (default [] (Some (record :: more)))
      with (record :: more).
    cbn [for_each]. do 2 apply bind_raises. unfold str_format.
    change (format_fields "{alias} is an alias for {name}")
      with ["alias"; "name"].
    cbn [format_values]. now rewrite Halias.
  - intros key records Hkey. unfold print_results, FORMATS.
    cbn [for_each]. unfold four_tags in Hkey.
    rewrite !lookup_insert_ne by set_solver. reflexivity.
Qed.

End PrintFacts.

(** ** Collecting and the cache *)

Section MainFacts.

Local Set Warnings "-clear-no-such-hyp".

Variable udp : list Event -> Query -> string -> Z -> Try Message.
Variable from_text : string -> Try string.

(** The two ways a step of the loop of [main] returns. *)
Lemma main_step_returns depth name
    (cache cache1 : gmap string (gmap string (list (gmap string Value))))
    log log1 :
  main_step udp from_text depth name cache log = (Ret cache1, log1) ->
  (exists cached,
      cache !! name = Some cached /\ cache1 = cache
      /\ log1 = log ++ printed cached)
  \/ (exists results log0,
      cache !! name = None
      /\ collect_results udp from_text depth name log = (Ret results, log0)
      /\ cache1 = <[name := results]> cache
      /\ log1 = log0 ++ printed results).
Proof.
  unfold main_step, bind. destruct (cache !! name) as [cached|] eqn:Hcache.
  - destruct (print_results cached log) as [[[]| |] lp] eqn:Hprint;
      try discriminate.
    intros [= <- <-]. left. exists cached.
    rewrite (print_results_returned _ _ _ Hprint) in Hprint.
    apply (f_equal snd) in Hprint. cbn [snd] in Hprint. now subst lp.
  - destruct (collect_results udp from_text depth name log)
      as [[results| |] log0]; try discriminate.
    rewrite lookup_insert_eq. cbn [default].
    change (id results) with results.
    destruct (print_results results log0) as [[[]| |] lp] eqn:Hprint;
      try discriminate.
    intros [= <- <-]. right. exists results, log0.
    rewrite (print_results_returned _ _ _ Hprint) in Hprint.
    apply (f_equal snd) in Hprint. cbn [snd] in Hprint. now subst lp.
Qed.

Lemma collect_results_returns_four_tags depth name log results log' :
  collect_results udp from_text depth name log = (Ret results, log') ->
  dom results = four_tags.
Proof.
  unfold collect_results, bind, ret.
  destruct (dns_name_from_text from_text name log) as [[n| |] l0];
    try discriminate.
  destruct (lookup udp from_text depth (NameObject n) rdatatype.CNAME l0)
    as [[r1| |] l1]; try discriminate.
  destruct (lookup udp from_text depth (NameObject n) rdatatype.A l1)
    as [[r2| |] l2]; try discriminate.
  destruct (lookup udp from_text depth (NameObject n) rdatatype.AAAA l2)
    as [[r3| |] l3]; try discriminate.
  destruct (lookup udp from_text depth (NameObject n) rdatatype.MX l3)
    as [[r4| |] l4]; try discriminate.
  intros [= <- _]. unfold four_tags.
  rewrite !dom_insert_L, dom_empty_L. set_solver.
Qed.

(** X9: the cache only grows.  When the loop of [main] returns, every
    entry the cache had is still there with the same result, and the names
    in the cache are those it had together with the names on the command
    line. *)
Theorem X9_cache_only_grows depth names :
  forall (cache cache' : gmap string (gmap string (list (gmap string Value))))
         log log',
    main_loop udp from_text depth names cache log = (Ret cache', log') ->
    cache ⊆ cache' /\ dom cache' = dom cache ∪ list_to_set names.
Proof.
  induction names as [|name rest IH]; intros cache cache' log log' Hrun.
  - cbn in Hrun. injection Hrun as <- _. split; [reflexivity|].
    cbn. set_solver.
  - cbn [main_loop] in Hrun. unfold bind in Hrun.
    destruct (main_step udp from_text depth name cache log)
      as [[cache1| |] log1] eqn:Hstep; try discriminate.
    apply IH in Hrun as [Hsub Hdom].
    apply main_step_returns in Hstep
      as [(cached & Hhit & -> & _)
         |(results & log0 & Hmiss & _ & -> & _)].
    + split; [assumption|]. rewrite Hdom. cbn [list_to_set].
      apply elem_of_dom_2 in Hhit. set_solver.
    + split.
      * transitivity (<[name := results]> cache); [|assumption].
        now apply insert_subseteq.
      * rewrite Hdom, dom_insert_L. cbn [list_to_set]. set_solver.
Qed.

(** X10: every result the loop of [main] puts into the cache has exactly
    the four keys CNAME, A, AAAA and MX: a cache whose entries all have
    them keeps that property through any run that returns. *)
Theorem X10_cached_results_have_four_tags depth names :
  forall (cache cache' : gmap string (gmap string (list (gmap string Value))))
         log log',
    (forall name results,
        cache !! name = Some results -> dom results = four_tags) ->
    main_loop udp from_text depth names cache log = (Ret cache', log') ->
    forall name results,
      cache' !! name = Some results -> dom results = four_tags.
Proof.
  induction names as [|name rest IH]; intros cache cache' log log' Hinv Hrun.
  - cbn in Hrun. now injection Hrun as <- _.
  - cbn [main_loop] in Hrun. unfold bind in Hrun.
    destruct (main_step udp from_text depth name cache log)
      as [[cache1| |] log1] eqn:Hstep; try discriminate.
    apply (IH cache1 cache' log1 log'); [|assumption].
    apply main_step_returns in Hstep
      as [(cached & _ & -> & _)
         |(results & log0 & _ & Hcollect & -> & _)]; [assumption|].
    intros name' results' Hlook.
    destruct (decide (name = name')) as [<-|Hne].
    + rewrite lookup_insert_eq in Hlook. injection Hlook as <-.
      eapply collect_results_returns_four_tags, Hcollect.
    + rewrite lookup_insert_ne in Hlook by assumption. eauto.
Qed.

(** X11: a name that does not parse ends the work before anything is sent.
    [collect_results] raises the parser's exception with the log untouched,
    and the loop of [main], reaching such a name that is not in the cache,
    ends with that exception: nothing is printed for it and the names after
    it are not looked up. *)
Theorem X11_unparsable_name_ends_the_run depth name e rest
    (cache : gmap string (gmap string (list (gmap string Value)))) log :
  from_text name = Raises e ->
  collect_results udp from_text depth name log = (Raise e, log)
  /\ (cache !! name = None ->
      main_loop udp from_text depth (name :: rest) cache log
      = (Raise e, log)).
Proof.
  intros Hname.
  assert (Hcollect : collect_results udp from_text depth name log
                     = (Raise e, log)).
  { unfold collect_results, bind, dns_name_from_text. now rewrite Hname. }
  split; [assumption|]. intros Hmiss.
  cbn [main_loop]. unfold bind, main_step. rewrite Hmiss.
  unfold bind. now rewrite Hcollect.
Qed.

(** X12: [collect_results] keeps no partial result.  When one of its four
    lookups raises, after the lookups before it returned, the call raises
    the same exception with the log that lookup left, and the lookups after
    it are not made. *)
Theorem X12_collect_results_stops_at_a_failed_lookup depth name n log e :
  from_text name = Returns n ->
  (forall l1,
      lookup udp from_text depth (NameObject n) rdatatype.CNAME log
        = (Raise e, l1) ->
      collect_results udp from_text depth name log = (Raise e, l1))
  /\ (forall r1 l1 l2,
      lookup udp from_text depth (NameObject n) rdatatype.CNAME log
        = (Ret r1, l1) ->
      lookup udp from_text depth (NameObject n) rdatatype.A l1
        = (Raise e, l2) ->
      collect_results udp from_text depth name log = (Raise e, l2))
  /\ (forall r1 l1 r2 l2 l3,
      lookup udp from_text depth (NameObject n) rdatatype.CNAME log
        = (Ret r1, l1) ->
      lookup udp from_text depth (NameObject n) rdatatype.A l1
        = (Ret r2, l2) ->
      lookup udp from_text depth (NameObject n) rdatatype.AAAA l2
        = (Raise e, l3) ->
      collect_results udp from_text depth name log = (Raise e, l3))
  /\ (forall r1 l1 r2 l2 r3 l3 l4,
      lookup udp from_text depth (NameObject n) rdatatype.CNAME log
        = (Ret r1, l1) ->
      lookup udp from_text depth (NameObject n) rdatatype.A l1
        = (Ret r2, l2) ->
      lookup udp from_text depth (NameObject n) rdatatype.AAAA l2
        = (Ret r3, l3) ->
      lookup udp from_text depth (NameObject n) rdatatype.MX l3
        = (Raise e, l4) ->
      collect_results udp from_text depth name log = (Raise e, l4)).
Proof.
  intros Hname. unfold collect_results, bind, dns_name_from_text.
  rewrite Hname. cbn [lift ret].
  repeat split.
  - intros l1 H1. now rewrite H1.
  - intros r1 l1 l2 H1 H2. now rewrite H1, H2.
  - intros r1 l1 r2 l2 l3 H1 H2 H3. now rewrite H1, H2, H3.
  - intros r1 l1 r2 l2 r3 l3 l4 H1 H2 H3 H4. now rewrite H1, H2, H3, H4.
Qed.

(** X13: the A, AAAA and MX lists are filtered by exact type code.  The
    addresses listed for a type code are the texts of exactly the answer
    records with that code, in answer order, and the exchanges listed under
    MX are those of exactly the records with code 15, each with its
    preference. *)
Theorem X13_typed_lists_hold_exactly_the_records_of_their_type code r :
  List.map (fun d : gmap string Value => d !! "address")
      (address_records code (Some r))
  = List.map (fun x => Some (VStr (rdata_str x)))
      (List.filter (fun x => rdtype x =? code)
         (answer_records (msg_answer r)))
  /\ List.map (fun d : gmap string Value =>
                 (d !! "preference", d !! "exchange"))
       (mx_records (Some r))
     = List.map (fun x => (Some (VInt (preference x)),
                           Some (VStr (exchange x))))
         (List.filter (fun x => rdtype x =? 15)
            (answer_records (msg_answer r))).
Proof.
  unfold address_records, mx_records, answer_records.
  split; induction (msg_answer r) as [|rrs answer IH]; try reflexivity;
    cbn [flat_map]; rewrite List.filter_app, !List.map_app, IH; f_equal;
    induction (List.filter _ (rrset_items rrs)) as [|x l IHl];
    try reflexivity; cbn [List.map]; now rewrite IHl.
Qed.

Lemma for_server_all_timeouts recurse q T servers :
  (forall log server, udp log q server 3 = Raises Timeout) ->
  forall tn log,
    for_server udp recurse q T servers tn log
    = (Ret None, log ++ sends q servers).
Proof.
  intros Hsilent. induction servers as [|server rest IH]; intros tn log.
  - cbn. unfold ret. now rewrite app_nil_r.
  - rewrite for_server_timeout by apply Hsilent. rewrite IH.
    cbn [sends List.map]. now rewrite <- app_assoc.
Qed.

Lemma lookup_all_timeouts depth n T log :
  (forall log q server, udp log q server 3 = Raises Timeout) ->
  lookup udp from_text depth (NameObject n) T log
  = (Ret None, log ++ root_round n T).
Proof.
  intros Hsilent. unfold lookup.
  rewrite (recursive_dns_lookup_unfold udp from_text depth (NameObject n) n
             T ROOT_SERVERS log ltac:(unfold ROOT_SERVERS; discriminate)
             eq_refl).
  rewrite for_server_all_timeouts by (intros; apply Hsilent).
  unfold after_asking, root_round. cbn [sends List.map app].
  now rewrite <- app_assoc.
Qed.

(** X14: when no server answers in time, [collect_results] still returns:
    the result has the four keys, each with the empty list, and the log
    shows the four lookups in the order CNAME, A, AAAA, MX, each one query
    sent once to each of the thirteen root servers in their order. *)
Theorem X14_silent_network_gives_four_empty_lists depth name n log :
  from_text name = Returns n ->
  (forall log q server, udp log q server 3 = Raises Timeout) ->
  collect_results udp from_text depth name log
  = (Ret nothing_found,
     log ++ root_round n rdatatype.CNAME ++ root_round n rdatatype.A
         ++ root_round n rdatatype.AAAA ++ root_round n rdatatype.MX).
Proof.
  intros Hname Hsilent. unfold collect_results, bind, dns_name_from_text.
  rewrite Hname. cbn [lift ret].
  rewrite !lookup_all_timeouts by assumption.
  unfold ret. now rewrite <- !app_assoc.
Qed.

Lemma main_step_hit depth name
    (cache : gmap string (gmap string (list (gmap string Value)))) cached
    log :
  cache !! name = Some cached ->
  printable cached ->
  main_step udp from_text depth name cache log
  = (Ret cache, log ++ printed cached).
Proof.
  intros Hhit Hprintable. unfold main_step, bind.
  now rewrite Hhit, print_results_log.
Qed.

(** X16: a run of the loop of [main] over names that are all in the cache
    with results whose records have the keys their templates name returns
    the cache as it was and only prints, for each name in turn, the lines
    of its cached result: no query is built and nothing is sent. *)
Theorem X16_cached_names_are_only_printed depth names
    (cache : gmap string (gmap string (list (gmap string Value)))) :
  Forall (fun name =>
            exists cached, cache !! name = Some cached /\ printable cached)
    names ->
  forall log,
    main_loop udp from_text depth names cache log
    = (Ret cache,
       log ++ flat_map (fun name => printed (default ∅ (cache !! name)))
                names).
Proof.
  induction 1 as [|name rest (cached & Hhit & Hprintable) _ IH]; intros log.
  - cbn. unfold ret. now rewrite app_nil_r.
  - cbn [main_loop flat_map]. unfold bind.
    rewrite (main_step_hit _ _ _ cached) by assumption.
    rewrite IH, Hhit. cbn [default]. now rewrite <- app_assoc.
Qed.

(** What the four reshaping loops build has the keys of its template. *)
Lemma collected_records_printable name r_cname r_a r_aaaa r_mx :
  printable
    (<["MX" := mx_records r_mx]>
       (<["AAAA" := address_records 28 r_aaaa]>
          (<["A" := address_records 1 r_a]>
             (<["CNAME" := cname_records name r_cname]> ∅)))).
Proof.
  intros rtype fmt_str result Hfmt Hresult. unfold FORMATS in Hfmt.
  destruct Hfmt as [[= <- <-]|[[= <- <-]|[[= <- <-]|[[= <- <-]|[]]]]];
    unfold str_format.
  - change (format_fields "{alias} is an alias for {name}")
      with ["alias"; "name"].
    rewrite !lookup_insert_ne, lookup_insert_eq in Hresult by discriminate.
    cbn [default cname_records] in Hresult.
    destruct r_cname as [response|]; [|destruct Hresult].
    apply in_flat_map in Hresult as (answers & _ & Hresult).
    apply in_map_iff in Hresult as (answer & <- & _).
    eexists. cbn [format_values]. now simplify_map_eq.
  - change (format_fields "{name} has address {address}")
      with ["name"; "address"].
    rewrite !lookup_insert_ne, lookup_insert_eq in Hresult by discriminate.
    cbn [default address_records] in Hresult.
    destruct r_a as [response|]; [|destruct Hresult].
    apply in_flat_map in Hresult as (answers & _ & Hresult).
    apply in_map_iff in Hresult as (answer & <- & _).
    eexists. cbn [format_values]. now simplify_map_eq.
  - change (format_fields "{name} has IPv6 address {address}")
      with ["name"; "address"].
    rewrite !lookup_insert_ne, lookup_insert_eq in Hresult by discriminate.
    cbn [default address_records] in Hresult.
    destruct r_aaaa as [response|]; [|destruct Hresult].
    apply in_flat_map in Hresult as (answers & _ & Hresult).
    apply in_map_iff in Hresult as (answer & <- & _).
    eexists. cbn [format_values]. now simplify_map_eq.
  - change
      (format_fields "{name} mail is handled by {preference} {exchange}")
      with ["name"; "preference"; "exchange"].
    rewrite lookup_insert_eq in Hresult.
    cbn [default mx_records] in Hresult.
    destruct r_mx as [response|]; [|destruct Hresult].
    apply in_flat_map in Hresult as (answers & _ & Hresult).
    apply in_map_iff in Hresult as (answer & <- & _).
    eexists. cbn [format_values]. now simplify_map_eq.
Qed.

(** X20: what [collect_results] returns can always be printed.  Each of
    its records has the keys its template names, so [print_results] returns
    for it with all its lines, and a step of the loop of [main] for a name
    that is not in the cache returns whenever [collect_results] does. *)
Theorem X20_collected_results_can_be_printed depth name results log log'
    (cache : gmap string (gmap string (list (gmap string Value)))) :
  collect_results udp from_text depth name log = (Ret results, log') ->
  printable results
  /\ (forall log2,
        print_results results log2 = (Ret tt, log2 ++ printed results))
  /\ (cache !! name = None ->
      main_step udp from_text depth name cache log
      = (Ret (<[name := results]> cache), log' ++ printed results)).
Proof.
  intros Hcollect.
  assert (Hprintable : printable results).
  { revert Hcollect. unfold collect_results, bind, ret.
    destruct (dns_name_from_text from_text name log) as [[n| |] l0];
      try discriminate.
    destruct (lookup udp from_text depth (NameObject n) rdatatype.CNAME l0)
      as [[r1| |] l1]; try discriminate.
    destruct (lookup udp from_text depth (NameObject n) rdatatype.A l1)
      as [[r2| |] l2]; try discriminate.
    destruct (lookup udp from_text depth (NameObject n) rdatatype.AAAA l2)
      as [[r3| |] l3]; try discriminate.
    destruct (lookup udp from_text depth (NameObject n) rdatatype.MX l3)
      as [[r4| |] l4]; try discriminate.
    intros [= <- _]. apply collected_records_printable. }
  split; [assumption|]. split.
  - intros log2. now apply print_results_log.
  - intros Hmiss. unfold main_step, bind. rewrite Hmiss, Hcollect.
    rewrite lookup_insert_eq. cbn [default].
    change (id results) with results.
    now rewrite print_results_log.
Qed.

End MainFacts.

(** ** Chains *)

Section Chains.

Variable udp : list Event -> Query -> string -> Z -> Try Message.
Variable from_text : string -> Try string.

(** X17: one referral followed by a direct answer takes two queries and
    two sends.  When the first server asked sends a referral and the first
    extracted glue address answers with a record of the requested type, the
    call returns that second response; the nested call builds its own query
    from the same name, and neither the other glue addresses nor the rest of
    the first list is asked. *)
Theorem X17_referral_then_answer depth target n T server rest log r1 glue
    more_glue r2 pre c post :
  query_name from_text target = Returns n ->
  udp (after_asking log target n T []) (mkQuery n T) server 3 = Returns r1 ->
  msg_answer r1 = [] ->
  glue_addresses (msg_additional r1) = glue :: more_glue ->
  udp (after_asking (after_asking log target n T [server]) target n T [])
      (mkQuery n T) glue 3 = Returns r2 ->
  answer_records (msg_answer r2) = pre ++ c :: post ->
  Forall (unusable T) pre ->
  rdtype c = T ->
  recursive_dns_lookup udp from_text (S depth) target T (server :: rest) log
  = (Ret (Some r2),
     after_asking (after_asking log target n T [server]) target n T [glue]).
Proof.
  intros Hn Hudp1 Hans1 Hglue Hudp2 Hrecs Hpre Hc.
  assert (Hadd : msg_additional r1 <> []).
  { intros Hnil. now rewrite Hnil in Hglue. }
  pose proof (recursive_dns_lookup_referral udp from_text (S depth) target n
                T [] server rest log target r1 Hn (po_done _ _ _ _ _) Hudp1
                Hans1 Hadd) as Hrefer.
  cbn [app] in Hrefer. rewrite Hrefer, Hglue. cbn [nested_call].
  rewrite (recursive_dns_lookup_unfold udp from_text depth target n T
             (glue :: more_glue) _ ltac:(discriminate) Hn).
  rewrite (for_server_reply udp _ _ _ _ _ _ _ _ Hudp2).
  rewrite scan_answer_records, Hrecs, scan_rrset_found by assumption.
  destruct (msg_answer r2); [now destruct pre|].
  unfold ret, after_asking. cbn [sends List.map].
  now rewrite <- !app_assoc.
Qed.

(** X19: one alias followed by a direct answer takes two queries and two
    sends.  When the first server asked answers with a CNAME record and the
    first root server answers the query for the alias target with a record
    of the requested type, the call returns that second response; the
    second query is built from the record's text without its final dot, and
    no other server is asked. *)
Theorem X19_alias_then_answer depth target n T server rest log r1 pre1 c
    post1 alias_target alias_name r2 pre2 found post2 :
  T <> rdatatype.CNAME ->
  query_name from_text target = Returns n ->
  udp (after_asking log target n T []) (mkQuery n T) server 3 = Returns r1 ->
  answer_records (msg_answer r1) = pre1 ++ c :: post1 ->
  Forall (unusable T) pre1 ->
  rdtype c = rdatatype.CNAME ->
  rdata_str c = alias_target +:+ "." ->
  from_text alias_target = Returns alias_name ->
  udp (after_asking (after_asking log target n T [server])
         (NameText alias_target) alias_name T [])
      (mkQuery alias_name T) "198.41.0.4" 3 = Returns r2 ->
  answer_records (msg_answer r2) = pre2 ++ found :: post2 ->
  Forall (unusable T) pre2 ->
  rdtype found = T ->
  recursive_dns_lookup udp from_text (S depth) target T (server :: rest) log
  = (Ret (Some r2),
     after_asking (after_asking log target n T [server])
       (NameText alias_target) alias_name T ["198.41.0.4"]).
Proof.
  intros HT Hn Hudp1 Hrecs1 Hpre1 Hc Htext Halias Hudp2 Hrecs2 Hpre2 Hfound.
  rewrite (recursive_dns_lookup_unfold udp from_text (S depth) target n T
             (server :: rest) log ltac:(discriminate) Hn).
  rewrite (for_server_hands_over udp _ _ _ _ _ _ _ (NameText alias_target)
             ROOT_SERVERS).
  2:{ apply ho_alias with r1; [assumption| |].
      - destruct (msg_answer r1); [now destruct pre1|easy].
      - rewrite scan_answer_records, Hrecs1,
          (scan_rrset_alias T pre1 c post1 _ HT Hpre1 Hc), Htext.
        now rewrite drop_last_snoc. }
  cbn [nested_call].
  replace (after_asking log target n T [] ++ [EvUdp (mkQuery n T) server 3])
    with (after_asking log target n T [server])
    by (unfold after_asking; cbn [sends List.map];
        now rewrite <- !app_assoc).
  rewrite (recursive_dns_lookup_unfold udp from_text depth
             (NameText alias_target) alias_name T ROOT_SERVERS _
             ltac:(unfold ROOT_SERVERS; discriminate) Halias).
  unfold ROOT_SERVERS at 1.
  rewrite (for_server_reply udp _ _ _ _ _ _ _ _ Hudp2).
  rewrite scan_answer_records, Hrecs2, scan_rrset_found by assumption.
  destruct (msg_answer r2); [now destruct pre2|].
  unfold ret, after_asking. cbn [sends List.map].
  now rewrite <- !app_assoc.
Qed.

(** X18: the resolver does not detect alias loops.  When the first root
    server keeps answering the query for a name with a CNAME record that
    points back to that name, a resolution of that name for another type
    from the root servers never returns: at every depth it ends by running
    out of depth. *)
Theorem X18_alias_loop_exhausts_every_depth n T r pre c post :
  T <> rdatatype.CNAME ->
  from_text n = Returns n ->
  (forall log, udp log (mkQuery n T) "198.41.0.4" 3 = Returns r) ->
  answer_records (msg_answer r) = pre ++ c :: post ->
  Forall (unusable T) pre ->
  rdtype c = rdatatype.CNAME ->
  rdata_str c = n +:+ "." ->
  forall depth log,
    fst (recursive_dns_lookup udp from_text depth (NameText n) T ROOT_SERVERS
           log)
    = OutOfDepth.
Proof.
  intros HT Hn Hudp Hrecs Hpre Hc Htext.
  assert (Hstep : forall depth log,
    recursive_dns_lookup udp from_text depth (NameText n) T ROOT_SERVERS log
    = nested_call udp from_text depth (NameText n) T ROOT_SERVERS
        (after_asking log (NameText n) n T ["198.41.0.4"])).
  { intros depth log.
    rewrite (recursive_dns_lookup_unfold udp from_text depth (NameText n) n
               T ROOT_SERVERS log
               ltac:(unfold ROOT_SERVERS; discriminate) Hn).
    unfold ROOT_SERVERS at 1.
    rewrite (for_server_hands_over udp _ _ _ _ _ _ _ (NameText n)
               ROOT_SERVERS).
    { unfold after_asking. cbn [sends List.map].
      now rewrite <- !app_assoc. }
    apply ho_alias with r; [apply Hudp| |].
    - destruct (msg_answer r); [now destruct pre|easy].
    - rewrite scan_answer_records, Hrecs,
        (scan_rrset_alias T pre c post _ HT Hpre Hc), Htext.
      now rewrite drop_last_snoc. }
  induction depth as [|depth IH]; intros log; rewrite Hstep;
    [reflexivity|apply IH].
Qed.

End Chains.

(** ** The further properties on concrete hierarchies *)

Section MoreInstances.

Import Scenario Run More.

Lemma X1_witness :
  recursive_dns_lookup lagging_net parse 0 (NameObject "example.com") 1
    ["192.0.2.1"; "192.0.2.2"; "192.0.2.3"] []
  = (Ret (Some a_answer),
     after_asking [] (NameObject "example.com") "example.com" 1
       ["192.0.2.1"; "192.0.2.2"]).
Proof.
  apply (X1_first_matching_record_returns_the_response lagging_net parse 0
           (NameObject "example.com") "example.com" 1 ["192.0.2.1"]
           "192.0.2.2" ["192.0.2.3"] [] (NameObject "example.com") a_answer
           [] a_record []);
    [reflexivity| |reflexivity|reflexivity|constructor|reflexivity].
  apply po_timeout; [reflexivity|constructor].
Defined.

Lemma X2_witness :
  received lagging_net 1 a_answer
  /\ Exists (fun x => rdtype x = 1) (answer_records (msg_answer a_answer)).
Proof.
  apply (X2_returned_response_answers_the_type lagging_net parse 0
           (NameObject "example.com") 1 ["192.0.2.1"; "192.0.2.2"] []
           a_answer
           (after_asking [] (NameObject "example.com") "example.com" 1
              ["192.0.2.1"; "192.0.2.2"])).
  reflexivity.
Defined.

Lemma X4_witness :
  raised_by_collaborator malformed_net parse FormError
  /\ (FormError = Timeout -> exists text, parse text = Raises Timeout).
Proof.
  apply (X4_timeouts_of_servers_never_surface malformed_net parse 0
           (NameObject "example.com") 1 ["192.0.2.1"; "192.0.2.2"] []
           FormError
           (after_asking [] (NameObject "example.com") "example.com" 1
              ["192.0.2.1"])).
  reflexivity.
Defined.

Lemma X5_witness :
  recursive_dns_lookup silent_net parse 0 (NameObject "example.com") 1
    ["192.0.2.1"; "192.0.2.2"] []
  = (Ret None,
     after_asking [] (NameObject "example.com") "example.com" 1
       ["192.0.2.1"; "192.0.2.2"]).
Proof.
  apply (X5_exhausted_list_is_not_found silent_net parse 0
           (NameObject "example.com") "example.com" 1
           ["192.0.2.1"; "192.0.2.2"] [] (NameObject "example.com"));
    [discriminate|reflexivity|].
  repeat (apply po_timeout; [reflexivity|]). constructor.
Defined.

Lemma X6_witness :
  recursive_dns_lookup glueless_net parse 1 (NameObject "example.com") 1
    ["192.0.2.1"; "192.0.2.2"] []
  = (Ret None,
     after_asking [] (NameObject "example.com") "example.com" 1
       ["192.0.2.1"]).
Proof.
  apply (X6_referral_without_glue_is_not_found glueless_net parse 0
           (NameObject "example.com") "example.com" 1 [] "192.0.2.1"
           ["192.0.2.2"] [] (NameObject "example.com") aaaa_glue_referral);
    [reflexivity|constructor|reflexivity|reflexivity|discriminate
    |reflexivity].
Defined.

Lemma X8_witness :
  print_results (<["TXT" := [∅]]> static_results) []
  = print_results static_results [].
Proof.
  apply (proj2 (proj2 (proj2
           (X8_print_results_prints_the_four_lists_in_order
              static_results [])))).
  unfold four_tags. intros Hin.
  repeat (apply elem_of_union in Hin as [Hin|Hin]);
    apply elem_of_singleton in Hin; discriminate.
Defined.

Lemma X9_witness :
  (∅ : gmap string (gmap string (list (gmap string Value)))) ⊆ warm_cache
  /\ dom warm_cache
     = dom (∅ : gmap string (gmap string (list (gmap string Value))))
       ∪ list_to_set ["example.com"; "example.com"].
Proof.
  assert (Hrun : main_loop static_net parse 0 ["example.com"; "example.com"]
                   ∅ [] = (Ret warm_cache, snd twice)) by reflexivity.
  exact (X9_cache_only_grows static_net parse 0
           ["example.com"; "example.com"] ∅ warm_cache [] (snd twice) Hrun).
Defined.

Lemma X10_witness : dom static_results = four_tags.
Proof.
  assert (Hrun : main_loop static_net parse 0 ["example.com"; "example.com"]
                   ∅ [] = (Ret warm_cache, snd twice)) by reflexivity.
  assert (Hempty : forall name results,
             (∅ : gmap string (gmap string (list (gmap string Value))))
               !! name = Some results ->
             dom results = four_tags).
  { intros name results Hlook. rewrite lookup_empty in Hlook.
    discriminate. }
  apply (X10_cached_results_have_four_tags static_net parse 0
           ["example.com"; "example.com"] ∅ warm_cache [] (snd twice)
           Hempty Hrun "example.com" static_results).
  reflexivity.
Defined.

Lemma X11_witness :
  collect_results static_net strict_parse 0 "a..b" [] = (Raise EmptyLabel, [])
  /\ ((∅ : gmap string (gmap string (list (gmap string Value)))) !! "a..b"
      = None ->
      main_loop static_net strict_parse 0 ["a..b"; "example.com"] ∅ []
      = (Raise EmptyLabel, [])).
Proof.
  apply (X11_unparsable_name_ends_the_run static_net strict_parse 0 "a..b"
           EmptyLabel ["example.com"] ∅ []).
  reflexivity.
Defined.

Lemma X12_witness :
  collect_results broken_a_net parse 0 "example.com" []
  = (Raise FormError,
     root_round "example.com" 5
     ++ [EvMakeQuery (NameObject "example.com") 1;
         EvUdp (mkQuery "example.com" 1) "198.41.0.4" 3]).
Proof.
  apply (proj1 (proj2 (X12_collect_results_stops_at_a_failed_lookup
                         broken_a_net parse 0 "example.com" "example.com" []
                         FormError eq_refl))
           None (root_round "example.com" 5));
    reflexivity.
Defined.

Lemma X14_witness :
  collect_results silent_net parse 0 "example.com" []
  = (Ret nothing_found,
     [] ++ root_round "example.com" 5 ++ root_round "example.com" 1
        ++ root_round "example.com" 28 ++ root_round "example.com" 15).
Proof.
  apply (X14_silent_network_gives_four_empty_lists silent_net parse 0
           "example.com" "example.com" []); reflexivity.
Defined.

Lemma X16_witness :
  main_loop static_net parse 0 ["example.com"; "example.com"] warm_cache []
  = (Ret warm_cache,
     [] ++ flat_map (fun name => printed (default ∅ (warm_cache !! name)))
             ["example.com"; "example.com"]).
Proof.
  apply (X16_cached_names_are_only_printed static_net parse 0
           ["example.com"; "example.com"] warm_cache).
  assert (Hprintable : printable static_results)
    by apply (collected_records_printable "example.com" None
                (Some a_answer) (Some aaaa_answer) (Some mx_answer)).
  constructor; [exists static_results; split; [reflexivity|assumption]|].
  constructor; [exists static_results; split; [reflexivity|assumption]|].
  constructor.
Defined.

Lemma X20_witness :
  printable static_results
  /\ (forall log2,
        print_results static_results log2
        = (Ret tt, log2 ++ printed static_results))
  /\ ((∅ : gmap string (gmap string (list (gmap string Value))))
        !! "example.com" = None ->
      main_step static_net parse 0 "example.com" ∅ []
      = (Ret (<["example.com" := static_results]> ∅),
         snd first_collect ++ printed static_results)).
Proof.
  apply (X20_collected_results_can_be_printed static_net parse 0
           "example.com" static_results [] (snd first_collect) ∅).
  reflexivity.
Defined.

(** [collect_results] does not return a mapping for every input: a name
    with an empty label makes it raise before anything is sent, a reply to
    the A query that cannot be decoded makes it raise after the CNAME
    lookup returned NotFound, and an alias that points to itself makes its
    A lookup run out of depth. *)
Lemma C8_counterexample :
  collect_results static_net strict_parse 0 "a..b" []
  = (Raise EmptyLabel, [])
  /\ collect_results broken_a_net parse 0 "example.com" []
     = (Raise FormError,
        root_round "example.com" 5
        ++ [EvMakeQuery (NameObject "example.com") 1;
            EvUdp (mkQuery "example.com" 1) "198.41.0.4" 3])
  /\ fst (collect_results loop_net parse 7 "loop.example.com" [])
     = OutOfDepth.
Proof. repeat split; reflexivity. Qed.

Lemma X17_witness :
  recursive_dns_lookup two_level_net parse 1 (NameObject "example.com") 1
    ["192.0.2.1"; "192.0.2.2"] []
  = (Ret (Some a_answer),
     [EvMakeQuery (NameObject "example.com") 1;
      EvUdp (mkQuery "example.com" 1) "192.0.2.1" 3;
      EvMakeQuery (NameObject "example.com") 1;
      EvUdp (mkQuery "example.com" 1) "192.0.2.53" 3]).
Proof.
  apply (X17_referral_then_answer two_level_net parse 0
           (NameObject "example.com") "example.com" 1 "192.0.2.1"
           ["192.0.2.2"] [] a_glue_referral "192.0.2.53" [] a_answer
           [] a_record []);
    [reflexivity|reflexivity|reflexivity|reflexivity|reflexivity
    |reflexivity|constructor|reflexivity].
Defined.

Lemma X19_witness :
  recursive_dns_lookup alias_net parse 1 (NameObject "www.example.com") 1
    ["192.0.2.1"; "192.0.2.2"] []
  = (Ret (Some a_answer),
     [EvMakeQuery (NameObject "www.example.com") 1;
      EvUdp (mkQuery "www.example.com" 1) "192.0.2.1" 3;
      EvMakeQuery (NameText "example.com") 1;
      EvUdp (mkQuery "example.com" 1) "198.41.0.4" 3]).
Proof.
  apply (X19_alias_then_answer alias_net parse 0
           (NameObject "www.example.com") "www.example.com" 1 "192.0.2.1"
           ["192.0.2.2"] [] cname_answer [] cname_record [] "example.com"
           "example.com" a_answer [] a_record []);
    [discriminate|reflexivity|reflexivity|reflexivity|constructor
    |reflexivity|reflexivity|reflexivity|reflexivity|reflexivity
    |constructor|reflexivity].
Defined.

Lemma X18_witness :
  fst (recursive_dns_lookup loop_net parse 7 (NameText "loop.example.com") 1
         ROOT_SERVERS [])
  = OutOfDepth.
Proof.
  apply (X18_alias_loop_exhausts_every_depth loop_net parse
           "loop.example.com" 1 loop_answer [] loop_record []);
    [discriminate|reflexivity|reflexivity|reflexivity|constructor
    |reflexivity|reflexivity].
Defined.

End MoreInstances.
